(** * Address resolution of the codewalk server

    A shallow embedding of the address evaluator of package [codewalk]
    ([addrToByteRange], [addrNumber], [addrRegexp]) and of its line/byte
    index ([lineToByte], [byteToLine]), with the properties the
    specification states about them.

    Conventions of the embedding:
    - a Go [int] is a [Z]: from a start within the buffer every offset the
      code computes stays between -1 and [len(data)], and a count only
      goes down towards 0, so the 64-bit wrap-around never comes into play;
    - [[]byte] is a [list byte], a Go [string] is a [string];
    - an index or slice expression out of range is a run-time panic in Go;
      it is the outcome [Panic] here;
    - Go's [error] values are the constructors of [ErrorKind]. *)

From Stdlib Require Import ZArith List String Ascii Bool Lia.
From Stdlib.Strings Require Import Byte.
Import ListNotations.

Local Open Scope Z_scope.

(** ** Buffers *)

Definition len {A : Type} (l : list A) : Z := Z.of_nat (List.length l).

(** [data[i]]: [None] stands for Go's index-out-of-range panic. *)
Definition index (data : list byte) (i : Z) : option byte :=
  if i <? 0 then None else nth_error data (Z.to_nat i).

(** The byte ['\n']. *)
Definition nl : byte := x0a.

Definition is_nl (c : byte) : bool :=
  match c with x0a => true | _ => false end.

(** The numeric value of a byte. *)
Definition byte_val (c : byte) : Z := Z.of_N (Byte.to_N c).

(** The bytes of a string literal (used to write buffers down). *)
Definition bytes (s : string) : list byte := list_byte_of_string s.

(** ** Line/byte index *)

(** The [range data] loop of [lineToByte], at index [i] with [rest = data[i:]];
    [total] is [len(data)], the value returned when the loop runs out. *)
Fixpoint lineToByte_range (total : Z) (rest : list byte) (i n : Z) : Z :=
  match rest with
  | [] => total
  | c :: rest' =>
      if is_nl c then
        if n - 1 =? 0 then i + 1
        else lineToByte_range total rest' (i + 1) (n - 1)
      else lineToByte_range total rest' (i + 1) n
  end.

Definition lineToByte (data : list byte) (n : Z) : Z :=
  if n <=? 1 then 0
  else lineToByte_range (len data) data 0 (n - 1).

(** The [range data] loop of [byteToLine], at index [j] with [rest = data[j:]]. *)
Fixpoint byteToLine_range (rest : list byte) (j i l : Z) : Z :=
  match rest with
  | [] => l
  | c :: rest' =>
      if j =? i then l
      else byteToLine_range rest' (j + 1) i (if is_nl c then l + 1 else l)
  end.

Definition byteToLine (data : list byte) (i : Z) : Z :=
  byteToLine_range data 0 i 1.


(** ** Outcomes *)

(** The errors the evaluator returns.  The code builds them with
    [errors.New] and from [strconv] and [regexp]; the constructors keep the
    part of the message that varies. *)
Inductive ErrorKind : Type :=
| InvalidAddress (c : ascii)      (* "invalid address syntax near " + c *)
| ParseError (s : string)         (* strconv.Atoi: value out of range *)
| AddressOutOfRange               (* "address out of range" *)
| InvalidPattern (p : string)     (* the error of regexp.Compile *)
| NoMatch (p : string)            (* "no match for " + pattern *)
| UnsupportedDirection.           (* "reverse search not implemented" *)

(** Go's run-time panics on [data[i]] and on [s[i:j]]. *)
Inductive PanicKind : Type :=
| IndexOutOfRange
| SliceOutOfRange.

(** What a call does: it returns values, returns an error, or panics.
    [OutOfFuel] is the model's own: a loop that was not given enough
    iterations.  The functions below give every loop enough of them and
    never produce it ([addrNumber_total], [addrToByteRange_total]). *)
Inductive outcome (A : Type) : Type :=
| Ok (a : A)
| Err (e : ErrorKind)
| Panic (p : PanicKind)
| OutOfFuel.

Arguments Ok {A} a.
Arguments Err {A} e.
Arguments Panic {A} p.
Arguments OutOfFuel {A}.

Definition bind {A B : Type} (x : outcome A) (k : A -> outcome B) : outcome B :=
  match x with
  | Ok a => k a
  | Err e => Err e
  | Panic p => Panic p
  | OutOfFuel => OutOfFuel
  end.

Notation "x <- e ;; k" := (bind e (fun x => k))
  (at level 61, e at next level, right associativity).
Notation "' p <- e ;; k" := (bind e (fun x => let p := x in k))
  (at level 61, p pattern, e at next level, right associativity).

(** ** UTF-8 decoding *)

(** The [size] result of Go's [utf8.DecodeRune(p)], after the standard
    library's implementation: the table [first] gives, for the leading byte,
    the length of the sequence and the range accepted for the second byte;
    an empty input has size 0 and every malformed or truncated sequence is
    an error rune of size 1. *)
Definition is_cont (c : byte) : bool :=
  (0x80 <=? byte_val c) && (byte_val c <=? 0xBF).

Definition DecodeRune_size (p : list byte) : Z :=
  match p with
  | [] => 0
  | p0 :: t =>
      let b0 := byte_val p0 in
      if b0 <? 0x80 then 1
      else if (b0 <? 0xC2) || (0xF4 <? b0) then 1
      else
        let sz := if b0 <? 0xE0 then 2 else if b0 <? 0xF0 then 3 else 4 in
        let accept_lo :=
          if b0 =? 0xE0 then 0xA0 else if b0 =? 0xF0 then 0x90 else 0x80 in
        let accept_hi :=
          if b0 =? 0xED then 0x9F else if b0 =? 0xF4 then 0x8F else 0xBF in
        if len p <? sz then 1
        else
          match t with
          | [] => 1
          | p1 :: t1 =>
              if (byte_val p1 <? accept_lo) || (accept_hi <? byte_val p1) then 1
              else if sz <=? 2 then 2
              else
                match t1 with
                | [] => 1
                | p2 :: t2 =>
                    if negb (is_cont p2) then 1
                    else if sz <=? 3 then 3
                    else
                      match t2 with
                      | [] => 1
                      | p3 :: _ => if negb (is_cont p3) then 1 else 4
                      end
                end
          end
  end.

(** ** The numeric stepper *)

(** Every loop of [addrNumber] moves one offset through the buffer, so
    [len(data) + 1] iterations are enough for each of them. *)
Definition loop_fuel (data : list byte) : nat := S (List.length data).

(** [for ; n > 0 && pos < len(data); n-- { _, size := utf8.DecodeRune(data[pos:]); pos += size }]
    The result is the pair [(n, pos)] the loop ends with. *)
Fixpoint runes_forward (fuel : nat) (data : list byte) (n pos : Z)
  : outcome (Z * Z) :=
  if (0 <? n) && (pos <? len data) then
    match fuel with
    | O => OutOfFuel
    | S fuel' =>
        if pos <? 0 then Panic SliceOutOfRange
        else
          let size := DecodeRune_size (skipn (Z.to_nat pos) data) in
          runes_forward fuel' data (n - 1) (pos + size)
    end
  else Ok (n, pos).

(** [for hi < len(data) && data[hi-1] != '\n' { hi++ }] *)
Fixpoint next_line_start (fuel : nat) (data : list byte) (hi : Z) : outcome Z :=
  if hi <? len data then
    match index data (hi - 1) with
    | None => Panic IndexOutOfRange
    | Some c =>
        if is_nl c then Ok hi
        else
          match fuel with
          | O => OutOfFuel
          | S fuel' => next_line_start fuel' data (hi + 1)
          end
    end
  else Ok hi.

(** The forward line loop:
    [for ; hi < len(data); hi++ { if data[hi] != '\n' { continue };
       switch n--; n { case 1: lo = hi + 1; case 0: return lo, hi + 1, nil } }];
    running off the buffer leaves the [switch] of [addrNumber] and reaches
    its last line, the out-of-range error. *)
Fixpoint lines_forward (fuel : nat) (data : list byte) (lo hi n : Z)
  : outcome (Z * Z) :=
  if hi <? len data then
    match fuel with
    | O => OutOfFuel
    | S fuel' =>
        match index data hi with
        | None => Panic IndexOutOfRange
        | Some c =>
            if is_nl c then
              if n - 1 =? 1 then lines_forward fuel' data (hi + 1) (hi + 1) (n - 1)
              else if n - 1 =? 0 then Ok (lo, hi + 1)
              else lines_forward fuel' data lo (hi + 1) (n - 1)
            else lines_forward fuel' data lo (hi + 1) n
        end
    end
  else Err AddressOutOfRange.

(** [for ; pos > 0 && n > 0; pos-- { if data[pos]&0xc0 != 0x80 { n-- } }]
    The result is the pair [(n, pos)] the loop ends with. *)
Fixpoint runes_backward (fuel : nat) (data : list byte) (n pos : Z)
  : outcome (Z * Z) :=
  if (0 <? pos) && (0 <? n) then
    match fuel with
    | O => OutOfFuel
    | S fuel' =>
        match index data pos with
        | None => Panic IndexOutOfRange
        | Some c =>
            if negb (Z.land (byte_val c) 0xc0 =? 0x80)
            then runes_backward fuel' data (n - 1) (pos - 1)
            else runes_backward fuel' data n (pos - 1)
        end
    end
  else Ok (n, pos).

(** [for lo > 0 && data[lo-1] != '\n' { lo-- }] *)
Fixpoint line_start (fuel : nat) (data : list byte) (lo : Z) : outcome Z :=
  if 0 <? lo then
    match index data (lo - 1) with
    | None => Panic IndexOutOfRange
    | Some c =>
        if is_nl c then Ok lo
        else
          match fuel with
          | O => OutOfFuel
          | S fuel' => line_start fuel' data (lo - 1)
          end
    end
  else Ok lo.

(** The backward line loop:
    [for ; lo >= 0; lo-- { if lo > 0 && data[lo-1] != '\n' { continue };
       switch n--; n { case 1: hi = lo; case 0: return lo, hi, nil } }] *)
Fixpoint lines_backward (fuel : nat) (data : list byte) (lo hi n : Z)
  : outcome (Z * Z) :=
  if 0 <=? lo then
    match fuel with
    | O => OutOfFuel
    | S fuel' =>
        let at_start :=
          if 0 <? lo then
            match index data (lo - 1) with
            | None => Panic IndexOutOfRange
            | Some c => Ok (is_nl c)
            end
          else Ok true in
        b <- at_start ;;
        if negb b then lines_backward fuel' data (lo - 1) hi n
        else if n - 1 =? 1 then lines_backward fuel' data (lo - 1) lo (n - 1)
        else if n - 1 =? 0 then Ok (lo, hi)
        else lines_backward fuel' data (lo - 1) hi (n - 1)
    end
  else Err AddressOutOfRange.

(** [case '+'] of [addrNumber] (also reached from [case 0] by [fallthrough]). *)
Definition addrNumber_forward (data : list byte) (hi n : Z) (charOffset : bool)
  : outcome (Z * Z) :=
  if charOffset then
    r <- runes_forward (loop_fuel data) data n hi ;;
    if fst r =? 0 then Ok (snd r, snd r) else Err AddressOutOfRange
  else
    hi1 <- (if 0 <? hi then next_line_start (loop_fuel data) data hi else Ok hi) ;;
    if n =? 0 then Ok (hi1, hi1)
    else lines_forward (loop_fuel data) data hi1 hi1 n.

(** [case '-'] of [addrNumber]. *)
Definition addrNumber_backward (data : list byte) (lo n : Z) (charOffset : bool)
  : outcome (Z * Z) :=
  if charOffset then
    r <- runes_backward (loop_fuel data) data n lo ;;
    if fst r =? 0 then Ok (snd r, snd r) else Err AddressOutOfRange
  else
    lo1 <- line_start (loop_fuel data) data lo ;;
    if n =? 0 then Ok (lo1, lo1)
    else lines_backward (loop_fuel data) data lo1 lo1 n.

(** The direction bytes: [0], ['+'] and ['-']. *)
Definition dir0 : ascii := "000"%char.
Definition dirPlus : ascii := "+"%char.
Definition dirMinus : ascii := "-"%char.

Definition addrNumber (data : list byte) (lo hi : Z) (dir : ascii) (n : Z)
  (charOffset : bool) : outcome (Z * Z) :=
  if (dir =? dir0)%char then addrNumber_forward data 0 n charOffset
  else if (dir =? dirPlus)%char then addrNumber_forward data hi n charOffset
  else if (dir =? dirMinus)%char then addrNumber_backward data lo n charOffset
  else Err AddressOutOfRange.

(** ** The regexp stepper *)

(** Package [regexp] of Go's standard library, as far as [addrRegexp] uses
    it: [Compile] ([None] for a compile error) and [FindIndex] ([None] for
    Go's [nil], otherwise the two offsets of the leftmost match), which
    reports offsets within its input. *)
Record RegexpEngine : Type := {
  Regexp : Type;
  Compile : string -> option Regexp;
  FindIndex : Regexp -> list byte -> option (Z * Z);
  FindIndex_bounds : forall re b m0 m1,
    FindIndex re b = Some (m0, m1) -> 0 <= m0 /\ m0 <= m1 /\ m1 <= len b
}.

Definition addrRegexp (E : RegexpEngine) (data : list byte) (lo hi : Z)
  (dir : ascii) (pattern : string) : outcome (Z * Z) :=
  match Compile E pattern with
  | None => Err (InvalidPattern pattern)
  | Some re =>
      if (dir =? dirMinus)%char then Err UnsupportedDirection
      else if (hi <? 0) || (len data <? hi) then Panic SliceOutOfRange
      else
        let m :=
          match FindIndex E re (skipn (Z.to_nat hi) data) with
          | Some (m0, m1) => Some (m0 + hi, m1 + hi)
          | None => if 0 <? hi then FindIndex E re data else None
          end in
        match m with
        | Some (m0, m1) => Ok (m0, m1)
        | None => Err (NoMatch pattern)
        end
  end.

(** ** The address evaluator *)

Definition is_digit (c : ascii) : bool :=
  (48 <=? nat_of_ascii c)%nat && (nat_of_ascii c <=? 57)%nat.

(** [for i = 1; i < len(addr); i++ { if addr[i] < '0' || addr[i] > '9' { break } }]
    [rest] is [addr[i:]]; the result is the final [i]. *)
Fixpoint digits_end (rest : string) (i : nat) : nat :=
  match rest with
  | EmptyString => i
  | String d rest' => if is_digit d then digits_end rest' (S i) else i
  end.

Fixpoint digits_value (s : string) (acc : Z) : Z :=
  match s with
  | EmptyString => acc
  | String d s' => digits_value s' (10 * acc + (Z.of_nat (nat_of_ascii d) - 48))
  end.

(** [strconv.Atoi] on a run of decimal digits: it fails only when the value
    does not fit a (64-bit) [int]. *)
Definition Atoi (s : string) : outcome Z :=
  let v := digits_value s 0 in
  if v <=? 2 ^ 63 - 1 then Ok v else Err (ParseError s).

(** The loop labelled [Regexp]:
    [for i = 1; i < len(addr); i++ { switch addr[i] { case '\\': i++;
       case '/': j = i + 1; break Regexp } }]
    [rest] is [addr[i:]]; the result is the final [(i, j)], with [j = 0]
    when no closing delimiter was met.  After a backslash in last place [i]
    ends at [len(addr) + 1]. *)
Fixpoint regexp_end (rest : string) (i : nat) : nat * nat :=
  match rest with
  | EmptyString => (i, O)
  | String c rest' =>
      if (c =? "\")%char then
        match rest' with
        | EmptyString => (S (S i), O)
        | String _ rest'' => regexp_end rest'' (S (S i))
        end
      else if (c =? "/")%char then (i, S i)
      else regexp_end rest' (S i)
  end.

(** [s[n:]] for [n <= len(s)]. *)
Fixpoint string_drop (n : nat) (s : string) : string :=
  match n, s with
  | O, _ => s
  | S n', String _ s' => string_drop n' s'
  | S _, EmptyString => EmptyString
  end.

(** The loop of [addrToByteRange] together with what follows it, on the
    loop's variables.  One unit of fuel is one iteration; every iteration
    consumes at least one byte of [addr]. *)
Fixpoint addr_loop (E : RegexpEngine) (fuel : nat) (data : list byte)
  (addr : string) (lo hi : Z) (dir prevc : ascii) (charOffset : bool)
  {struct fuel} : outcome (Z * Z) :=
  match addr with
  | EmptyString =>
      if negb (dir =? dir0)%char then addrNumber data lo hi dir 1 charOffset
      else Ok (lo, hi)
  | String c rest =>
      match fuel with
      | O => OutOfFuel
      | S fuel' =>
          if (c =? ",")%char then
            match rest with
            | EmptyString => Ok (lo, len data)
            | String _ _ =>
                r <- addr_loop E fuel' data rest hi hi dir0 dir0 false ;;
                Ok (lo, snd r)
            end
          else if (c =? "+")%char || (c =? "-")%char then
            r <- (if (prevc =? "+")%char || (prevc =? "-")%char
                  then addrNumber data lo hi prevc 1 charOffset
                  else Ok (lo, hi)) ;;
            addr_loop E fuel' data rest (fst r) (snd r) c c charOffset
          else if (c =? "$")%char then
            addr_loop E fuel' data rest (len data) (len data)
              (match rest with EmptyString => dir | String _ _ => dirPlus end)
              c charOffset
          else if (c =? "#")%char then
            addr_loop E fuel' data rest lo hi dir c true
          else if is_digit c then
            let i := digits_end rest 1 in
            n <- Atoi (substring 0 i addr) ;;
            r <- addrNumber data lo hi dir n charOffset ;;
            addr_loop E fuel' data (string_drop i addr) (fst r) (snd r)
              dir0 c false
          else if (c =? "/")%char then
            let ij := regexp_end rest 1 in
            let i := fst ij in
            let j := if Nat.eqb (snd ij) 0 then i else snd ij in
            if (String.length addr <? i)%nat then Panic SliceOutOfRange
            else
              let pattern := substring 1 (i - 1) addr in
              r <- addrRegexp E data lo hi dir pattern ;;
              addr_loop E fuel' data (string_drop j addr) (fst r) (snd r)
                dir c charOffset
          else Err (InvalidAddress c)
      end
  end.

Definition addrToByteRange (E : RegexpEngine) (addr : string) (start : Z)
  (data : list byte) : outcome (Z * Z) :=
  addr_loop E (String.length addr) data addr start start dir0 dir0 false.

(** ** Loading a codewalk: the lines of a step *)

(** [strings.Index(s, ":")] over [Src[i:]]: the index of the first colon, or
    -1 when there is none. *)
Fixpoint index_colon (s : string) (i : Z) : Z :=
  match s with
  | EmptyString => -1
  | String c s' => if (c =? ":")%char then i else index_colon s' (i + 1)
  end.

(** The file name and the address of a step in [loadCodewalk]:
    [i := strings.Index(st.Src, ":"); if i < 0 { i = len(st.Src) };
     filename := st.Src[0:i]], and the address [st.Src[i+1:]], which is
    there when [i < len(st.Src)]. *)
Definition split_src (src : string) : string * option string :=
  let i := index_colon src 0 in
  let i := if i <? 0 then Z.of_nat (String.length src) else i in
  (substring 0 (Z.to_nat i) src,
   if i <? Z.of_nat (String.length src)
   then Some (string_drop (Z.to_nat (i + 1)) src)
   else None).

(** [for hi < len(data) && (hi == 0 || data[hi-1] != '\n') { hi++ }] *)
Fixpoint line_end (fuel : nat) (data : list byte) (hi : Z) : outcome Z :=
  if hi <? len data then
    stop <- (if hi =? 0 then Ok false
             else match index data (hi - 1) with
                  | None => Panic IndexOutOfRange
                  | Some c => Ok (is_nl c)
                  end) ;;
    if stop : bool then Ok hi
    else
      match fuel with
      | O => OutOfFuel
      | S fuel' => line_end fuel' data (hi + 1)
      end
  else Ok hi.

(** What [loadCodewalk] does with the address of a step once its file is
    read: the address is resolved from offset 0 (an error is kept in the
    step), the match is grown to line boundaries, with the loop of
    [addrNumber] for [lo] and the one above for [hi], and [st.Lo], [st.Hi]
    are the lines of [lo] and of [hi-1]. *)
Definition step_lines (E : RegexpEngine) (addr : string) (data : list byte)
  : outcome (Z * Z) :=
  r <- addrToByteRange E addr 0 data ;;
  lo <- line_start (loop_fuel data) data (fst r) ;;
  hi <- line_end (loop_fuel data) data (snd r) ;;
  Ok (byteToLine data lo, byteToLine data (hi - 1)).

(** ** A reference engine for literal patterns *)

(** Go's [regexp] is not part of the repository.  The general statements
    below hold for every [RegexpEngine]; the worked examples need one that
    runs.  [LiteralEngine] covers the fragment of Go's syntax they use:
    a pattern of ASCII bytes free of metacharacters is the literal it
    spells and matches at its leftmost occurrence.  Every other pattern is
    refused; of those only ["("] is used below, which [regexp.Compile]
    refuses as well (missing closing parenthesis). *)
Definition is_meta (c : ascii) : bool :=
  existsb (Ascii.eqb c)
    ["\"; "."; "+"; "*"; "?"; "("; ")"; "|"; "["; "]"; "{"; "}"; "^"; "$"]%char.

Fixpoint string_forallb (f : ascii -> bool) (s : string) : bool :=
  match s with
  | EmptyString => true
  | String c s' => f c && string_forallb f s'
  end.

Fixpoint has_prefix (p l : list byte) : bool :=
  match p, l with
  | [], _ => true
  | _ :: _, [] => false
  | a :: p', b :: l' => Byte.eqb a b && has_prefix p' l'
  end.

(** Leftmost occurrence of [p] in [l], offsets counted from [i]. *)
Fixpoint find_literal (p l : list byte) (i : Z) : option (Z * Z) :=
  if has_prefix p l then Some (i, i + len p)
  else
    match l with
    | [] => None
    | _ :: l' => find_literal p l' (i + 1)
    end.

Definition literal_compile (pattern : string) : option (list byte) :=
  if string_forallb
       (fun c => negb (is_meta c) && (nat_of_ascii c <? 128)%nat) pattern
  then Some (bytes pattern) else None.

(** ** Worked buffers *)

(** ["line1\nline2\nline3\n"] *)
Definition three_lines : list byte :=
  bytes "line1" ++ nl :: bytes "line2" ++ nl :: bytes "line3" ++ [nl].

(** ["a\nb\n"] *)
Definition two_lines : list byte := [x61; nl; x62; nl].


(** One three-byte character (U+4E16) followed by ["a"]. *)
Definition wide_then_a : list byte := [xe4; xb8; x96; x61].

(** ** Vocabulary of the statements *)

(** Number of newline bytes of a buffer. *)
Fixpoint count_nl (l : list byte) : Z :=
  match l with
  | [] => 0
  | c :: l' => (if is_nl c then 1 else 0) + count_nl l'
  end.

(** The specification speaks of [lineCount(buffer)] without defining it and
    the code has no such function.  It is taken here as the largest line
    number [byteToLine] can report, one more than the number of newline
    bytes; any smaller reading of the line count (newline-terminated lines
    only, say) is covered by the statements below. *)
Definition lineCount (data : list byte) : Z := 1 + count_nl data.

(** [rune_steps data p k q]: decoding [k] whole runes from offset [p], the
    way [utf8.DecodeRune] does, ends at offset [q]. *)
Inductive rune_steps (data : list byte) : Z -> Z -> Z -> Prop :=
| rune_steps_0 (p : Z) : rune_steps data p 0 p
| rune_steps_S (p k q : Z) :
    0 <= p < len data -> 0 <= k ->
    rune_steps data (p + DecodeRune_size (skipn (Z.to_nat p) data)) k q ->
    rune_steps data p (k + 1) q.

(** The rune boundaries of a buffer: offset 0 and the end of every rune met
    when the buffer is decoded from its start.  An offset strictly inside a
    multi-byte character is not one of them. *)
Inductive rune_boundary (data : list byte) : Z -> Prop :=
| rune_boundary_0 : rune_boundary data 0
| rune_boundary_next (p : Z) :
    rune_boundary data p -> p < len data ->
    rune_boundary data (p + DecodeRune_size (skipn (Z.to_nat p) data)).

(** [data[a:b]] *)
Definition slice (data : list byte) (a b : Z) : list byte :=
  firstn (Z.to_nat (b - a)) (skipn (Z.to_nat a) data).

(** The offsets a line can start at: 0, the end of the buffer, and every
    offset just past a newline. *)
Definition line_boundary (data : list byte) (j : Z) : Prop :=
  j = 0 \/ j = len data \/ index data (j - 1) = Some nl.

(** Whether the buffer ends in a line without a newline. *)
Definition unterminated (data : list byte) : bool :=
  match index data (len data - 1) with
  | Some c => negb (is_nl c)
  | None => false
  end.

(** The lines at or after the line boundary [h]: those that end in a
    newline, and the unterminated last line when there is one. *)
Definition lines_from (data : list byte) (h : Z) : Z :=
  count_nl (skipn (Z.to_nat h) data)
  + (if (h <? len data) && unterminated data then 1 else 0).

(** A line number: a run of decimal digits. *)
Definition all_digits (s : string) : bool := string_forallb is_digit s.

(** A pattern with no delimiter and no backslash in it. *)
Definition plain_pattern (p : string) : bool :=
  string_forallb (fun c => negb (c =? "/")%char && negb (c =? "\")%char) p.

(** An address in which the byte [c] does not occur. *)
Definition no_byte (c : ascii) (s : string) : bool :=
  string_forallb (fun x => negb (x =? c)%char) s.

(** Whether an address holds a comma. *)
Fixpoint has_comma (s : string) : bool :=
  match s with
  | EmptyString => false
  | String c s' => (c =? ",")%char || has_comma s'
  end.

(** ** The file print *)

(** Go's [int] is taken to be 64 bits wide; [wrap_int] is the value an [int]
    computation yields for the mathematical result [z]. *)
Definition max_int : Z := 2 ^ 63 - 1.

Definition wrap_int (z : Z) : Z := (z + 2 ^ 63) mod 2 ^ 64 - 2 ^ 63.

(** [data[a:b]] as Go evaluates it: out of order or out of the buffer it
    panics. *)
Definition go_slice (data : list byte) (a b : Z) : outcome (list byte) :=
  if (0 <=? a) && (a <=? b) && (b <=? len data) then Ok (slice data a b)
  else Panic SliceOutOfRange.

(** [for ; mark > 0 && n > 0; mark-- { if data[mark-1] == '\n' {
       if n--; n == 0 { break } } }]; the result is the final [mark]. *)
Fixpoint mark_loop (fuel : nat) (data : list byte) (mark n : Z) : outcome Z :=
  if (0 <? mark) && (0 <? n) then
    match index data (mark - 1) with
    | None => Panic IndexOutOfRange
    | Some c =>
        let n' := if is_nl c then n - 1 else n in
        if is_nl c && (n' =? 0) then Ok mark
        else match fuel with
             | O => OutOfFuel
             | S fuel' => mark_loop fuel' data (mark - 1) n'
             end
    end
  else Ok mark.

(** What [codewalkFileprint] writes, in order: the fixed pieces of markup
    and the pieces of the file, each of which goes through
    [template.HTMLEscape]. *)
Inductive chunk : Type :=
| Header                   (* the style import and the opening pre tag *)
| MarkAnchor               (* <a name='mark'></a> *)
| HighlightOpen            (* <div class='codewalkhighlight'> *)
| HighlightClose           (* </div> *)
| Footer                   (* </pre> *)
| Escaped (b : list byte). (* template.HTMLEscape(w, b) *)

(** [codewalkFileprint] once the file is read; [lo] and [hi] are the two
    values [strconv.Atoi] returned for the form values. *)
Definition codewalkFileprint (data : list byte) (lo hi : Z)
  : outcome (list chunk) :=
  let hi := if hi <? lo then lo else hi in
  let lo := lineToByte data lo in
  let hi := lineToByte data (wrap_int (hi + 1)) in
  mark <- mark_loop (loop_fuel data) data lo 4 ;;
  before <- go_slice data 0 mark ;;
  context <- go_slice data mark lo ;;
  highlight <- (if lo <? hi then
                  h <- go_slice data lo hi ;;
                  Ok [HighlightOpen; Escaped h; HighlightClose]
                else Ok []) ;;
  rest <- go_slice data hi (len data) ;;
  Ok ([Header; Escaped before; MarkAnchor; Escaped context]
        ++ highlight ++ [Escaped rest; Footer])%list.

(** The bytes a response shows highlighted. *)
Fixpoint highlighted (out : list chunk) : list byte :=
  match out with
  | [] => []
  | HighlightOpen :: Escaped b :: _ => b
  | _ :: out' => highlighted out'
  end.

(** The bytes of the file a response shows, in order. *)
Fixpoint escaped_bytes (out : list chunk) : list byte :=
  match out with
  | [] => []
  | Escaped b :: out' => (b ++ escaped_bytes out')%list
  | _ :: out' => escaped_bytes out'
  end.

(** ** Printing a step *)

(** The fields of a [codestep] its [String] method reads. *)
Record codestep : Type := {
  File : string;
  Lo : Z;
  Hi : Z
}.

(** The decimal digits of [u >= 0], written in front of [acc] from the last
    digit to the first, the way [strconv] formats an integer. *)
Fixpoint format_digits (fuel : nat) (u : Z) (acc : string) : string :=
  let acc' := String (ascii_of_nat (Z.to_nat (48 + u mod 10))) acc in
  if u <? 10 then acc'
  else match fuel with
       | O => acc'
       | S fuel' => format_digits fuel' (u / 10) acc'
       end.

(** [fmt.Sprintf] with the verb [%d] on an [int], which has at most 19
    digits. *)
Definition format_int (z : Z) : string :=
  if z <? 0 then String "-" (format_digits 19 (- z) EmptyString)
  else format_digits 19 z EmptyString.

Definition codestep_String (st : codestep) : string :=
  let s := File st in
  if negb (Lo st =? 0) || negb (Hi st =? 0) then
    let s := (s ++ String ":" (format_int (Lo st)))%string in
    if negb (Lo st =? Hi st) then (s ++ String "," (format_int (Hi st)))%string
    else s
  else s.

(** ** Basic facts *)

Lemma is_nl_spec (c : byte) : is_nl c = true <-> c = nl.
Proof.
  unfold nl; split.
  - destruct c; simpl; intros H; try discriminate H; reflexivity.
  - intros ->; reflexivity.
Qed.

Lemma len_nil {A : Type} : len (@nil A) = 0.
Proof. reflexivity. Qed.

Lemma len_cons {A : Type} (a : A) (l : list A) : len (a :: l) = 1 + len l.
Proof. unfold len; cbn [List.length]; lia. Qed.

Lemma len_nonneg {A : Type} (l : list A) : 0 <= len l.
Proof. unfold len; lia. Qed.

Lemma len_app {A : Type} (l1 l2 : list A) : len (l1 ++ l2) = len l1 + len l2.
Proof. unfold len; rewrite List.length_app; lia. Qed.

Lemma count_nl_nonneg (l : list byte) : 0 <= count_nl l.
Proof. induction l as [|c l IH]; cbn [count_nl]; [lia|destruct (is_nl c); lia]. Qed.

Lemma count_nl_le_len (l : list byte) : count_nl l <= len l.
Proof.
  induction l as [|c l IH]; [reflexivity|].
  rewrite len_cons; cbn [count_nl]; destruct (is_nl c); lia.
Qed.

Lemma count_nl_app (l1 l2 : list byte) :
  count_nl (l1 ++ l2) = count_nl l1 + count_nl l2.
Proof.
  induction l1 as [|c l1 IH]; cbn [count_nl app]; [reflexivity|rewrite IH; lia].
Qed.

Lemma index_nil (i : Z) : index [] i = None.
Proof.
  unfold index; destruct (i <? 0); [reflexivity|].
  destruct (Z.to_nat i); reflexivity.
Qed.

Lemma index_0 (c : byte) (l : list byte) : index (c :: l) 0 = Some c.
Proof. reflexivity. Qed.

Lemma index_succ (c : byte) (l : list byte) (i : Z) :
  0 <= i -> index (c :: l) (i + 1) = index l i.
Proof.
  intros Hi; unfold index.
  destruct (Z.ltb_spec (i + 1) 0); [lia|].
  destruct (Z.ltb_spec i 0); [lia|].
  replace (Z.to_nat (i + 1)) with (S (Z.to_nat i)) by lia; reflexivity.
Qed.

Lemma index_Some_range (data : list byte) (i : Z) (c : byte) :
  index data i = Some c -> 0 <= i < len data.
Proof.
  unfold index, len; destruct (Z.ltb_spec i 0); [discriminate|].
  intros H1. assert (Hn : nth_error data (Z.to_nat i) <> None) by congruence.
  apply nth_error_Some in Hn; lia.
Qed.

Lemma index_in_range (data : list byte) (i : Z) :
  0 <= i < len data -> exists c, index data i = Some c.
Proof.
  unfold index, len; intros Hi; destruct (Z.ltb_spec i 0); [lia|].
  destruct (nth_error data (Z.to_nat i)) eqn:E; [eauto|].
  apply nth_error_None in E; lia.
Qed.

Lemma index_None_iff (data : list byte) (i : Z) :
  index data i = None <-> (i < 0 \/ len data <= i).
Proof.
  split.
  - intros H; destruct (Z_lt_dec i 0); [lia|].
    destruct (Z_lt_dec i (len data)); [|lia].
    destruct (index_in_range data i) as [c Hc]; [lia|congruence].
  - intros H; destruct (index data i) eqn:E; [|reflexivity].
    apply index_Some_range in E; lia.
Qed.

Lemma index_app_l (l1 l2 : list byte) (i : Z) :
  0 <= i < len l1 -> index (l1 ++ l2) i = index l1 i.
Proof.
  unfold index, len; intros Hi; destruct (Z.ltb_spec i 0); [lia|].
  apply nth_error_app1; lia.
Qed.

Lemma index_app_r (l1 l2 : list byte) (i : Z) :
  len l1 <= i -> index (l1 ++ l2) i = index l2 (i - len l1).
Proof.
  unfold index, len; intros Hi.
  destruct (Z.ltb_spec i 0); [lia|].
  destruct (Z.ltb_spec (i - Z.of_nat (List.length l1)) 0); [lia|].
  rewrite nth_error_app2 by lia; f_equal; lia.
Qed.

(** ** The reference engine reports offsets within its input *)

Lemma has_prefix_len (p l : list byte) : has_prefix p l = true -> len p <= len l.
Proof.
  revert l; induction p as [|a p IH]; intros l H.
  - rewrite len_nil; apply len_nonneg.
  - destruct l as [|b l]; [discriminate H|].
    cbn [has_prefix] in H; apply andb_true_iff in H as [_ H].
    rewrite !len_cons; apply IH in H; lia.
Qed.

Lemma find_literal_bounds (p l : list byte) (i m0 m1 : Z) :
  find_literal p l i = Some (m0, m1) ->
  i <= m0 /\ m0 <= m1 /\ m1 <= i + len l.
Proof.
  revert i; induction l as [|b l IH]; intros i H; cbn [find_literal] in H.
  - destruct (has_prefix p []) eqn:Hp; [|discriminate H].
    apply has_prefix_len in Hp; injection H as <- <-.
    pose proof (len_nonneg p); lia.
  - destruct (has_prefix p (b :: l)) eqn:Hp.
    + apply has_prefix_len in Hp; injection H as <- <-.
      pose proof (len_nonneg p); lia.
    + apply IH in H; rewrite len_cons; lia.
Qed.

Definition LiteralEngine : RegexpEngine := {|
  Regexp := list byte;
  Compile := literal_compile;
  FindIndex := fun re b => find_literal re b 0;
  FindIndex_bounds := fun re b m0 m1 H => find_literal_bounds re b 0 m0 m1 H
|}.

(** ** The line/byte index *)

Lemma firstn_succ_cons (c : byte) (l : list byte) (k : Z) :
  0 <= k -> firstn (Z.to_nat (k + 1)) (c :: l) = c :: firstn (Z.to_nat k) l.
Proof.
  intros Hk; replace (Z.to_nat (k + 1)) with (S (Z.to_nat k)) by lia; reflexivity.
Qed.

(** When the buffer still holds [n] newlines, the loop of [lineToByte]
    stops just past the [n]-th of them. *)
Lemma lineToByte_range_found (total : Z) (rest : list byte) :
  forall i n, 1 <= n <= count_nl rest ->
  exists k, lineToByte_range total rest i n = i + k /\
            0 < k <= len rest /\
            index rest (k - 1) = Some nl /\
            count_nl (firstn (Z.to_nat k) rest) = n.
Proof.
  induction rest as [|c rest IH]; intros i n Hn; cbn [count_nl] in Hn; [lia|].
  cbn [lineToByte_range]; rewrite len_cons.
  destruct (is_nl c) eqn:Hc.
  - destruct (Z.eqb_spec (n - 1) 0) as [H0|H0].
    + exists 1; repeat split; try lia.
      * pose proof (len_nonneg rest); lia.
      * apply is_nl_spec in Hc; subst c; reflexivity.
      * change (Z.to_nat 1) with 1%nat; cbn [firstn count_nl]; rewrite Hc; lia.
    + destruct (IH (i + 1) (n - 1)) as (k & Hk & Hr & Hx & Hcnt); [lia|].
      exists (k + 1); rewrite Hk; repeat split; try lia.
      * replace (k + 1 - 1) with (k - 1 + 1) by lia.
        rewrite index_succ by lia; exact Hx.
      * rewrite firstn_succ_cons by lia; cbn [count_nl]; rewrite Hc; lia.
  - destruct (IH (i + 1) n) as (k & Hk & Hr & Hx & Hcnt); [lia|].
    exists (k + 1); rewrite Hk; repeat split; try lia.
    + replace (k + 1 - 1) with (k - 1 + 1) by lia.
      rewrite index_succ by lia; exact Hx.
    + rewrite firstn_succ_cons by lia; cbn [count_nl]; rewrite Hc; lia.
Qed.

(** When fewer than [n] newlines are left, it runs out and answers [len(data)]. *)
Lemma lineToByte_range_clamped (total : Z) (rest : list byte) :
  forall i n, 1 <= n -> count_nl rest < n ->
  lineToByte_range total rest i n = total.
Proof.
  induction rest as [|c rest IH]; intros i n Hn Hc; [reflexivity|].
  cbn [count_nl] in Hc; cbn [lineToByte_range].
  pose proof (count_nl_nonneg rest).
  destruct (is_nl c).
  - destruct (Z.eqb_spec (n - 1) 0); [lia|apply IH; lia].
  - apply IH; lia.
Qed.

(** Both loops run over the same suffix from the same index. *)
Lemma byteToLine_range_lineToByte_range (total : Z) (rest : list byte) :
  forall i l n, 1 <= n <= count_nl rest ->
  byteToLine_range rest i (lineToByte_range total rest i n) l = l + n.
Proof.
  induction rest as [|c rest IH]; intros i l n Hn; cbn [count_nl] in Hn; [lia|].
  destruct (lineToByte_range_found total (c :: rest) i n) as (k & Hk & Hr & _);
    [cbn [count_nl]; lia|].
  cbn [byteToLine_range]; rewrite Hk.
  destruct (Z.eqb_spec i (i + k)); [lia|]; rewrite <- Hk.
  cbn [lineToByte_range].
  destruct (is_nl c) eqn:Hc.
  - destruct (Z.eqb_spec (n - 1) 0) as [H0|H0].
    + destruct rest as [|c' rest]; cbn [byteToLine_range]; [lia|].
      rewrite Z.eqb_refl; lia.
    + rewrite IH by lia; lia.
  - rewrite IH by lia; lia.
Qed.

(** C8.  For every buffer and every line number [L] from 1 to
    [lineCount(buffer)], converting the line to its byte offset and the
    offset back to a line gives [L] again. *)
Theorem byteToLine_lineToByte (data : list byte) (L : Z) :
  1 <= L <= lineCount data ->
  byteToLine data (lineToByte data L) = L.
Proof.
  unfold lineCount, byteToLine, lineToByte; intros HL.
  destruct (Z.leb_spec L 1) as [H1|H1].
  - assert (L = 1) by lia; subst L.
    destruct data; reflexivity.
  - rewrite byteToLine_range_lineToByte_range by lia; lia.
Qed.

Lemma byteToLine_lineToByte_witness :
  1 <= 2 <= lineCount [x61; x0a; x62; x0a] /\
  byteToLine [x61; x0a; x62; x0a] (lineToByte [x61; x0a; x62; x0a] 2) = 2.
Proof.
  split; [vm_compute; split; discriminate|].
  apply (byteToLine_lineToByte [x61; x0a; x62; x0a] 2).
  vm_compute; split; discriminate.
Defined.

Lemma count_nl_index (l : list byte) :
  forall i, index l i = Some nl -> 1 <= count_nl l.
Proof.
  induction l as [|c l IH]; intros i Hi; [rewrite index_nil in Hi; discriminate|].
  pose proof (count_nl_nonneg l) as Hl; cbn [count_nl].
  destruct (Z.eq_dec i 0) as [-> | Hne].
  - rewrite index_0 in Hi; injection Hi as ->; cbn [is_nl nl]; lia.
  - pose proof (index_Some_range _ _ _ Hi) as Hr.
    replace i with (i - 1 + 1) in Hi by lia.
    rewrite index_succ in Hi by lia.
    apply IH in Hi; destruct (is_nl c); lia.
Qed.

(** In a buffer that ends with a newline, the offset just past the last
    newline is the end of the buffer. *)
Lemma lineToByte_last_newline (data : list byte) (n : Z) :
  index data (len data - 1) = Some nl -> n - 1 = count_nl data ->
  lineToByte data n = len data.
Proof.
  intros Hlast Hn; pose proof (count_nl_index _ _ Hlast) as Hpos.
  unfold lineToByte; destruct (Z.leb_spec n 1); [lia|].
  destruct (lineToByte_range_found (len data) data 0 (n - 1))
    as (k & -> & Hr & _ & Hk); [lia|].
  destruct (Z.eq_dec k (len data)) as [-> | Hne]; [reflexivity|exfalso].
  pose proof (firstn_skipn (Z.to_nat k) data) as Hsplit.
  apply (f_equal count_nl) in Hsplit; rewrite count_nl_app, Hk in Hsplit.
  assert (Hx : index (skipn (Z.to_nat k) data) (len data - 1 - k) = Some nl).
  { unfold index in *.
    destruct (Z.ltb_spec (len data - 1) 0); [discriminate|].
    destruct (Z.ltb_spec (len data - 1 - k) 0); [lia|].
    rewrite nth_error_skipn; rewrite <- Hlast; f_equal; lia. }
  apply count_nl_index in Hx; lia.
Qed.

(** C9.  [lineToByte] maps every line number up to 1 to offset 0; a larger
    line number [n] within the buffer's lines maps to the offset just past
    the [(n-1)]-th newline; a line number beyond the line count is clamped
    to [len(data)], as is [lineCount(data) + 5].  (When the buffer ends with
    a newline the clamping starts one line earlier: every line number above
    the number of newlines maps to [len(data)].) *)
Theorem lineToByte_spec (data : list byte) (n : Z) :
  (n <= 1 -> lineToByte data n = 0) /\
  (1 < n -> n <= lineCount data ->
     0 < lineToByte data n <= len data /\
     index data (lineToByte data n - 1) = Some nl /\
     count_nl (firstn (Z.to_nat (lineToByte data n)) data) = n - 1) /\
  (lineCount data < n -> lineToByte data n = len data) /\
  (index data (len data - 1) = Some nl -> count_nl data < n ->
     lineToByte data n = len data) /\
  lineToByte data (lineCount data + 5) = len data.
Proof.
  assert (Hclamp : forall m, lineCount data < m -> lineToByte data m = len data).
  { unfold lineCount, lineToByte; intros m Hm.
    pose proof (count_nl_nonneg data).
    destruct (Z.leb_spec m 1); [lia|].
    apply lineToByte_range_clamped; lia. }
  split; [unfold lineToByte; intros H; destruct (Z.leb_spec n 1); [reflexivity|lia]|].
  split.
  { intros H1 Hn; unfold lineCount in Hn; unfold lineToByte.
    destruct (Z.leb_spec n 1); [lia|].
    destruct (lineToByte_range_found (len data) data 0 (n - 1))
      as (k & -> & Hr & Hx & Hk); [lia|].
    split; [lia|]; split; [exact Hx|exact Hk]. }
  split; [apply Hclamp|].
  split; [|apply Hclamp; lia].
  intros Hlast Hn.
  destruct (Z.eq_dec (n - 1) (count_nl data)) as [He|Hne].
  - apply lineToByte_last_newline; assumption.
  - apply Hclamp; unfold lineCount; lia.
Qed.

Lemma lineToByte_spec_witness :
  1 < 2 /\ 2 <= lineCount two_lines /\
  0 < lineToByte two_lines 2 <= len two_lines /\
  index two_lines (lineToByte two_lines 2 - 1) = Some nl /\
  count_nl (firstn (Z.to_nat (lineToByte two_lines 2)) two_lines) = 2 - 1.
Proof.
  split; [lia|]; split; [vm_compute; discriminate|].
  apply (proj1 (proj2 (lineToByte_spec two_lines 2)));
    [lia|vm_compute; discriminate].
Defined.

(** ** The empty address *)

(** C10.  The empty address evaluates without error to the initial range:
    from [(s, s)] the result is [(s, s)], for every buffer and every [s]
    (so for every [s] between 0 and [len(data)]). *)
Theorem addrToByteRange_empty (E : RegexpEngine) (data : list byte) (s : Z) :
  addrToByteRange E EmptyString s data = Ok (s, s).
Proof. reflexivity. Qed.

(** ** The regexp stepper *)

(** C5, as the code has it.  [addrRegexp] compiles the pattern before it
    looks at the direction: a backward search with a pattern that compiles
    signals [UnsupportedDirection] whatever the buffer holds, one with a
    pattern that does not compile signals [InvalidPattern]; and the address
    [-/abc/] signals [UnsupportedDirection] on every buffer. *)
Theorem addrRegexp_backward (E : RegexpEngine) (data : list byte) (lo hi : Z)
  (pattern : string) :
  (forall re, Compile E pattern = Some re ->
     addrRegexp E data lo hi dirMinus pattern = Err UnsupportedDirection) /\
  (Compile E pattern = None ->
     addrRegexp E data lo hi dirMinus pattern = Err (InvalidPattern pattern)) /\
  (forall re start, Compile E "abc" = Some re ->
     addrToByteRange E "-/abc/" start data = Err UnsupportedDirection).
Proof.
  repeat split.
  - intros re Hre; unfold addrRegexp; rewrite Hre; reflexivity.
  - intros Hre; unfold addrRegexp; rewrite Hre; reflexivity.
  - intros re start Hre; unfold addrToByteRange; cbn.
    unfold addrRegexp; rewrite Hre; reflexivity.
Qed.

Lemma addrRegexp_backward_witness :
  Compile LiteralEngine "abc" = Some (bytes "abc") /\
  addrRegexp LiteralEngine three_lines 0 0 dirMinus "abc" = Err UnsupportedDirection.
Proof.
  split; [reflexivity|].
  apply (proj1 (addrRegexp_backward LiteralEngine three_lines 0 0 "abc")
           (bytes "abc")); reflexivity.
Defined.

(** C5 as stated fails: with the pattern ["("], which does not compile, a
    backward search reports the compile error. *)
Lemma addrRegexp_backward_bad_pattern :
  addrRegexp LiteralEngine three_lines 0 0 dirMinus "(" = Err (InvalidPattern "(") /\
  addrToByteRange LiteralEngine "-/(/" 0 three_lines = Err (InvalidPattern "(") /\
  @Err (Z * Z) (InvalidPattern "(") <> Err UnsupportedDirection.
Proof. repeat split; try reflexivity; discriminate. Qed.

(** C6.  A forward search returns the absolute offsets of the first match
    in [data[hi:]]; when there is none and [hi > 0] it searches the whole
    buffer and returns that match; it signals [NoMatch] only when nothing
    was found.  On ["abcXabc"], [/abc/] from [hi = 4] gives [(4, 7)] and
    from [hi = 7] wraps round to [(0, 3)]. *)
Theorem addrRegexp_forward :
  (forall (E : RegexpEngine) data lo hi dir pattern re,
     dir <> dirMinus -> Compile E pattern = Some re -> 0 <= hi <= len data ->
     (forall m0 m1,
        FindIndex E re (skipn (Z.to_nat hi) data) = Some (m0, m1) ->
        addrRegexp E data lo hi dir pattern = Ok (m0 + hi, m1 + hi)) /\
     (forall m0 m1,
        FindIndex E re (skipn (Z.to_nat hi) data) = None -> 0 < hi ->
        FindIndex E re data = Some (m0, m1) ->
        addrRegexp E data lo hi dir pattern = Ok (m0, m1)) /\
     (FindIndex E re (skipn (Z.to_nat hi) data) = None ->
        hi = 0 \/ FindIndex E re data = None ->
        addrRegexp E data lo hi dir pattern = Err (NoMatch pattern))) /\
  addrRegexp LiteralEngine (bytes "abcXabc") 0 4 dirPlus "abc" = Ok (4, 7) /\
  addrRegexp LiteralEngine (bytes "abcXabc") 0 7 dirPlus "abc" = Ok (0, 3).
Proof.
  split; [|split; reflexivity].
  intros E data lo hi dir pattern re Hdir Hre Hhi.
  assert (Hd : (dir =? dirMinus)%char = false) by (apply Ascii.eqb_neq; exact Hdir).
  assert (Hr : (hi <? 0) || (len data <? hi) = false).
  { apply orb_false_iff; split; apply Z.ltb_ge; lia. }
  unfold addrRegexp; rewrite Hre, Hd, Hr.
  repeat split.
  - intros m0 m1 ->; reflexivity.
  - intros m0 m1 -> Hpos ->.
    destruct (Z.ltb_spec 0 hi); [reflexivity|lia].
  - intros -> [-> | H0]; [reflexivity|].
    rewrite H0; destruct (0 <? hi); reflexivity.
Qed.

Lemma addrRegexp_forward_witness :
  dirPlus <> dirMinus /\
  Compile LiteralEngine "abc" = Some (bytes "abc") /\
  0 <= 7 <= len (bytes "abcXabc") /\
  FindIndex LiteralEngine (bytes "abc") (skipn (Z.to_nat 7) (bytes "abcXabc")) = None /\
  FindIndex LiteralEngine (bytes "abc") (bytes "abcXabc") = Some (0, 3) /\
  addrRegexp LiteralEngine (bytes "abcXabc") 0 7 dirPlus "abc" = Ok (0, 3).
Proof.
  assert (Hd : dirPlus <> dirMinus) by discriminate.
  assert (Hr : 0 <= 7 <= len (bytes "abcXabc")) by (unfold len; cbn; lia).
  split; [exact Hd|]; split; [reflexivity|]; split; [exact Hr|].
  split; [reflexivity|]; split; [reflexivity|].
  apply (proj1 (proj2 (proj1 addrRegexp_forward LiteralEngine (bytes "abcXabc")
                         0 7 dirPlus "abc"%string (bytes "abc") Hd eq_refl Hr)));
    [reflexivity|lia|reflexivity].
Defined.

(** ** Where the evaluator leaves the specification *)

(** C1.  A backward rune step from the end of a non-empty buffer reads
    [data[len(data)]]: the address [$-#1] panics on every non-empty buffer
    instead of returning a range or an error.  (So does a pattern cut off
    after a backslash, in the slice [addr[1:i]].) *)
Theorem backward_rune_step_panics :
  addrToByteRange LiteralEngine "$-#1" 0 (bytes "a") = Panic IndexOutOfRange /\
  (forall data : list byte, data <> [] ->
     addrNumber data (len data) (len data) dirMinus 1 true = Panic IndexOutOfRange) /\
  (forall (E : RegexpEngine) data start, data <> [] ->
     addrToByteRange E "$-#1" start data = Panic IndexOutOfRange) /\
  (forall (E : RegexpEngine) data start,
     addrToByteRange E "/a\" start data = Panic SliceOutOfRange).
Proof.
  assert (Hn : forall data : list byte, data <> [] ->
     addrNumber data (len data) (len data) dirMinus 1 true = Panic IndexOutOfRange).
  { intros data Hne.
    change (addrNumber data (len data) (len data) dirMinus 1 true)
      with (addrNumber_backward data (len data) 1 true).
    unfold addrNumber_backward, loop_fuel; cbn [runes_backward].
    assert (Hpos : 0 < len data).
    { destruct data; [congruence|rewrite len_cons; pose proof (len_nonneg data); lia]. }
    destruct (Z.ltb_spec 0 (len data)); [|lia]; cbn [andb Z.ltb Z.compare].
    replace (index data (len data)) with (@None byte); [reflexivity|].
    symmetry; apply index_None_iff; lia. }
  repeat split.
  - exact Hn.
  - intros E data start Hne; unfold addrToByteRange; cbn -[addrNumber].
    change (is_digit "1") with true; change (Atoi "1") with (@Ok Z 1).
    pose proof (Hn data Hne) as Hp; unfold dirMinus in Hp.
    cbn [bind]; rewrite Hp; reflexivity.
Qed.

Lemma bind_ext {A B : Type} (x : outcome A) (k1 k2 : A -> outcome B) :
  (forall a, k1 a = k2 a) -> bind x k1 = bind x k2.
Proof. intros H; destruct x; cbn [bind]; [apply H|reflexivity..]. Qed.

Lemma length_string_drop (n : nat) :
  forall s, String.length (string_drop n s) = (String.length s - n)%nat.
Proof.
  induction n as [|n IH]; intros s; destruct s as [|c s];
    cbn [string_drop String.length]; try lia.
  rewrite IH; lia.
Qed.

Lemma digits_end_pos (rest : string) (i : nat) : (i <= digits_end rest i)%nat.
Proof.
  revert i; induction rest as [|d rest IH]; intros i; cbn [digits_end]; [lia|].
  destruct (is_digit d); [specialize (IH (S i))|]; lia.
Qed.

Lemma regexp_end_pos_aux (n : nat) :
  forall rest i, (String.length rest <= n)%nat ->
  (i <= fst (regexp_end rest i))%nat /\
  (snd (regexp_end rest i) = 0 \/ i < snd (regexp_end rest i))%nat.
Proof.
  induction n as [|n IH]; intros rest i Hn;
    destruct rest as [|c rest]; cbn [regexp_end fst snd String.length] in *;
    try lia.
  destruct (c =? "\")%char.
  - destruct rest as [|c' rest]; cbn [fst snd String.length] in *; [lia|].
    destruct (IH rest (S (S i))); lia.
  - destruct (c =? "/")%char; cbn [fst snd]; [lia|].
    destruct (IH rest (S i)); lia.
Qed.

Lemma regexp_end_pos (rest : string) (i : nat) :
  (i <= fst (regexp_end rest i))%nat /\
  (snd (regexp_end rest i) = 0 \/ i < snd (regexp_end rest i))%nat.
Proof. apply (regexp_end_pos_aux (String.length rest)); lia. Qed.

(** The result of the loop does not depend on the iterations it is given,
    once they cover the length of the address. *)
Lemma addr_loop_fuel (E : RegexpEngine) (data : list byte) :
  forall f1 f2 addr lo hi dir prevc charOffset,
  (String.length addr <= f1)%nat -> (String.length addr <= f2)%nat ->
  addr_loop E f1 data addr lo hi dir prevc charOffset =
  addr_loop E f2 data addr lo hi dir prevc charOffset.
Proof.
  induction f1 as [|f1 IH]; intros f2 addr lo hi dir prevc charOffset H1 H2;
    destruct addr as [|c rest]; cbn [String.length] in H1, H2;
    try (destruct f2; reflexivity); try lia.
  destruct f2 as [|f2]; [lia|]; cbn [addr_loop].
  destruct (c =? ",")%char.
  { destruct rest as [|c' rest]; [reflexivity|].
    rewrite (IH f2) by lia; reflexivity. }
  destruct ((c =? "+")%char || (c =? "-")%char).
  { apply bind_ext; intros r; apply IH; lia. }
  destruct (c =? "$")%char; [apply IH; lia|].
  destruct (c =? "#")%char; [apply IH; lia|].
  destruct (is_digit c).
  { apply bind_ext; intros n; apply bind_ext; intros r.
    pose proof (digits_end_pos rest 1).
    apply IH; rewrite length_string_drop; cbn [String.length]; lia. }
  destruct (c =? "/")%char; [|reflexivity].
  destruct (String.length (String c rest) <? fst (regexp_end rest 1))%nat;
    [reflexivity|].
  apply bind_ext; intros r.
  pose proof (regexp_end_pos rest 1) as [Hi Hj].
  apply IH; rewrite length_string_drop; cbn [String.length];
    destruct (Nat.eqb_spec (snd (regexp_end rest 1)) 0); lia.
Qed.

Lemma is_digit_plain (c : ascii) :
  is_digit c = true ->
  (c =? ",")%char = false /\ (c =? "+")%char = false /\
  (c =? "-")%char = false /\ (c =? "$")%char = false /\
  (c =? "#")%char = false.
Proof.
  intros Hd; repeat split;
    match goal with |- (c =? ?x)%char = false =>
      destruct (Ascii.eqb_spec c x) as [->|]; [discriminate Hd|reflexivity]
    end.
Qed.

Lemma digits_end_run (rest tail : string) (i : nat) :
  all_digits rest = true ->
  match tail with EmptyString => True | String d _ => is_digit d = false end ->
  digits_end (rest ++ tail) i = (i + String.length rest)%nat.
Proof.
  revert i; induction rest as [|d rest IH]; intros i Hr Ht;
    cbn [String.append digits_end String.length].
  - destruct tail as [|d tail]; cbn [digits_end]; [lia|rewrite Ht; lia].
  - cbn [all_digits string_forallb] in Hr; apply andb_true_iff in Hr as [Hd Hr].
    rewrite Hd, IH by assumption; lia.
Qed.

Lemma substring_prefix (a tail : string) :
  substring 0 (String.length a) (a ++ tail) = a.
Proof.
  induction a as [|c a IH]; cbn [String.append String.length substring].
  - destruct tail; reflexivity.
  - rewrite IH; reflexivity.
Qed.

Lemma string_drop_prefix (a tail : string) :
  string_drop (String.length a) (a ++ tail) = tail.
Proof. induction a as [|c a IH]; [reflexivity|exact IH]. Qed.

Lemma string_length_append (a b : string) :
  String.length (a ++ b) = (String.length a + String.length b)%nat.
Proof. induction a as [|c a IH]; cbn [String.append String.length]; lia. Qed.

Lemma addr_loop_done (E : RegexpEngine) (fuel : nat) (data : list byte)
  (lo hi : Z) (prevc : ascii) (charOffset : bool) :
  addr_loop E fuel data EmptyString lo hi dir0 prevc charOffset = Ok (lo, hi).
Proof. destruct fuel; reflexivity. Qed.

(** The comma case of the loop. *)
Lemma addr_loop_comma (E : RegexpEngine) (fuel : nat) (data : list byte)
  (b : string) (lo hi : Z) (dir prevc : ascii) (charOffset : bool) :
  (String.length b <= fuel)%nat ->
  addr_loop E (S fuel) data (String "," b) lo hi dir prevc charOffset =
  match b with
  | EmptyString => Ok (lo, len data)
  | String _ _ => r' <- addrToByteRange E b hi data ;; Ok (lo, snd r')
  end.
Proof.
  intros Hf; cbn [addr_loop]; rewrite Ascii.eqb_refl.
  destruct b as [|c' b]; [reflexivity|].
  unfold addrToByteRange.
  rewrite (addr_loop_fuel E data fuel (String.length (String c' b)));
    [reflexivity|exact Hf|lia].
Qed.

(** For a left side that is a line number the comma does what the
    specification says of it: the left side is resolved from the initial
    position, what follows the comma from the left side's [hi], and the
    result takes [lo] from the first and [hi] from the second, or
    [len(data)] when nothing follows. *)
Lemma comma_after_line_number (E : RegexpEngine) (a b : string) (start : Z)
  (data : list byte) :
  a <> EmptyString -> all_digits a = true ->
  addrToByteRange E (a ++ "," ++ b) start data =
  (r <- addrToByteRange E a start data ;;
   match b with
   | EmptyString => Ok (fst r, len data)
   | String _ _ => r' <- addrToByteRange E b (snd r) data ;; Ok (fst r, snd r')
   end).
Proof.
  intros Hne Hd; destruct a as [|c rest]; [congruence|clear Hne].
  cbn [all_digits string_forallb] in Hd; apply andb_true_iff in Hd as [Hc Hrest].
  destruct (is_digit_plain c Hc) as (H1 & H2 & H3 & H4 & H5).
  assert (Hnil : forall x : string, (x ++ "")%string = x).
  { induction x as [|d x IH]; cbn [String.append]; congruence. }
  pose proof (digits_end_run rest ("," ++ b) 1 Hrest eq_refl) as Hfull.
  pose proof (digits_end_run rest EmptyString 1 Hrest I) as Halone.
  pose proof (substring_prefix (String c rest) ("," ++ b)) as Hsub.
  pose proof (substring_prefix (String c rest) EmptyString) as Hsub'.
  pose proof (string_drop_prefix (String c rest) ("," ++ b)) as Hdrop.
  pose proof (string_drop_prefix (String c rest) EmptyString) as Hdrop'.
  rewrite Hnil in Halone, Hsub', Hdrop'.
  change (1 + String.length rest)%nat with (S (String.length rest)) in *.
  unfold addrToByteRange.
  cbn [String.append String.length addr_loop] in *.
  rewrite H1, H2, H3, H4, H5, Hc; cbn [orb].
  rewrite Hfull, Hsub, Hdrop, Halone, Hsub', Hdrop'.
  destruct (Atoi (String c rest)) as [n| | |]; cbn [bind]; try reflexivity.
  destruct (addrNumber data start start dir0 n false) as [r| | |];
    cbn [bind]; try reflexivity.
  rewrite addr_loop_done, string_length_append; cbn [bind String.length].
  replace (String.length rest + S (String.length b))%nat
    with (S (String.length rest + String.length b)) by lia.
  rewrite addr_loop_comma by lia.
  destruct r as [rlo rhi]; reflexivity.
Qed.

(** C3.  For a left side that is a line number the comma resolves it from
    the initial position, resolves what follows from its [hi], and returns
    the left [lo] with the right [hi] ([len(data)] when nothing follows):
    [1,2] and [0,$] on ["line1\nline2\nline3\n"] give [(0, 12)] and
    [(0, 18)].  But the comma returns at once, so a direction still pending
    on its left is dropped rather than applied: on ["a\nb\n"] the address
    [1+] is line 2, [(2, 4)], while [1+,] runs from 0, not from 2. *)
Theorem comma_drops_pending_direction :
  addrToByteRange LiteralEngine "1+" 0 two_lines = Ok (2, 4) /\
  addrToByteRange LiteralEngine "1+," 0 two_lines = Ok (0, 4) /\
  addrToByteRange LiteralEngine "1,2" 0 three_lines = Ok (0, 12) /\
  addrToByteRange LiteralEngine "0,$" 0 three_lines = Ok (0, 18) /\
  (forall (E : RegexpEngine) (a b : string) (start : Z) (data : list byte),
     a <> EmptyString -> all_digits a = true ->
     addrToByteRange E (a ++ "," ++ b) start data =
     (r <- addrToByteRange E a start data ;;
      match b with
      | EmptyString => Ok (fst r, len data)
      | String _ _ => r' <- addrToByteRange E b (snd r) data ;; Ok (fst r, snd r')
      end)).
Proof.
  repeat (split; [reflexivity|]).
  intros E a b start data; apply comma_after_line_number.
Qed.


(** C4 as stated fails: a forward step cannot select more lines than the
    buffer holds.  Both lines of [two_lines] end in a newline, and its
    fifth line is out of range. *)
Lemma forward_line_step_past_last_line :
  count_nl two_lines = 2 /\ unterminated two_lines = false /\
  addrNumber two_lines 0 0 dirPlus 5 false = Err AddressOutOfRange /\
  addrToByteRange LiteralEngine "5" 0 two_lines = Err AddressOutOfRange.
Proof. repeat split; reflexivity. Qed.

(** The forward line loop returns on a newline byte only: the last line of
    a buffer cannot be selected when it has no newline, although
    [byteToLine] and [lineToByte] give it a number.  The only line of
    ["abc"] is out of range, and so is the second line of a buffer made of
    [a], a newline and [b]. *)
Lemma forward_line_step_unterminated :
  addrNumber (bytes "abc") 0 0 dirPlus 1 false = Err AddressOutOfRange /\
  addrToByteRange LiteralEngine "1" 0 (bytes "abc") = Err AddressOutOfRange /\
  addrToByteRange LiteralEngine "2" 0 [x61; nl; x62] = Err AddressOutOfRange /\
  byteToLine [x61; nl; x62] 2 = 2 /\ lineToByte [x61; nl; x62] 2 = 2.
Proof. repeat split; reflexivity. Qed.

(** ** Forward rune steps *)

Lemma len_skipn {A : Type} (l : list A) (p : Z) :
  0 <= p <= len l -> len (skipn (Z.to_nat p) l) = len l - p.
Proof. unfold len; intros Hp; rewrite length_skipn; lia. Qed.

Lemma skipn_nonempty {A : Type} (l : list A) (p : Z) :
  0 <= p < len l -> skipn (Z.to_nat p) l <> [].
Proof.
  unfold len; intros Hp E; apply (f_equal (@List.length A)) in E.
  rewrite length_skipn in E; cbn [List.length] in E; lia.
Qed.

Ltac bool_to_prop :=
  repeat match goal with
  | H : (_ <? _) = true |- _ => apply Z.ltb_lt in H
  | H : (_ <? _) = false |- _ => apply Z.ltb_ge in H
  | H : (_ <=? _) = true |- _ => apply Z.leb_le in H
  | H : (_ <=? _) = false |- _ => apply Z.leb_gt in H
  | H : (_ =? _) = true |- _ => apply Z.eqb_eq in H
  | H : (_ =? _) = false |- _ => apply Z.eqb_neq in H
  | H : (_ || _)%bool = true |- _ => apply orb_true_iff in H
  | H : (_ || _)%bool = false |- _ => apply orb_false_iff in H as [? ?]
  | H : (_ && _)%bool = true |- _ => apply andb_true_iff in H as [? ?]
  | H : (_ && _)%bool = false |- _ => apply andb_false_iff in H
  | H : negb _ = true |- _ => apply negb_true_iff in H
  | H : negb _ = false |- _ => apply negb_false_iff in H
  end.

(** A rune decoded from a non-empty input takes at least one byte and no
    more than the input holds. *)
Lemma DecodeRune_size_bounds (p : list byte) :
  p <> [] -> 1 <= DecodeRune_size p <= len p.
Proof.
  destruct p as [|p0 t]; [congruence|intros _].
  unfold DecodeRune_size; cbv zeta.
  destruct t as [|p1 [|p2 [|p3 t]]]; rewrite ?len_cons, ?len_nil;
    try pose proof (len_nonneg t);
    repeat match goal with
    | |- context [if ?b then _ else _] => destruct b eqn:?
    end; lia.
Qed.

Lemma rune_steps_range (data : list byte) (p k q : Z) :
  rune_steps data p k q -> 0 <= p <= len data ->
  0 <= k /\ p <= q <= len data.
Proof.
  induction 1 as [p|p k q Hp Hk Hs IH]; intros Hr; [lia|].
  assert (Hne : skipn (Z.to_nat p) data <> []) by (apply skipn_nonempty; lia).
  pose proof (DecodeRune_size_bounds _ Hne) as Hsz.
  rewrite len_skipn in Hsz by lia; lia.
Qed.

Lemma rune_steps_boundary (data : list byte) (p k q : Z) :
  rune_steps data p k q -> rune_boundary data p -> rune_boundary data q.
Proof.
  induction 1 as [p|p k q Hp Hk Hs IH]; intros Hb; [exact Hb|].
  apply IH, rune_boundary_next; [exact Hb|lia].
Qed.

(** What the forward rune loop computes: the count comes down to 0 after
    [n] runes, or the buffer ends after [k < n] of them. *)
Lemma runes_forward_spec (data : list byte) :
  forall fuel n pos,
  0 <= pos <= len data -> 0 <= n -> len data - pos < Z.of_nat fuel ->
  (exists q, rune_steps data pos n q /\
             runes_forward fuel data n pos = Ok (0, q)) \/
  (exists k, 0 <= k < n /\ rune_steps data pos k (len data) /\
             runes_forward fuel data n pos = Ok (n - k, len data)).
Proof.
  induction fuel as [|fuel IH]; intros n pos Hpos Hn Hfuel; [lia|].
  cbn [runes_forward].
  destruct (Z.ltb_spec 0 n) as [Hn0|Hn0]; cbn [andb].
  2:{ left; exists pos; assert (n = 0) by lia; subst n; split; [constructor|reflexivity]. }
  destruct (Z.ltb_spec pos (len data)) as [Hlt|Hge].
  2:{ right; exists 0; assert (pos = len data) by lia; subst pos.
      repeat split; try lia; [constructor|rewrite Z.sub_0_r; reflexivity]. }
  destruct (Z.ltb_spec pos 0); [lia|].
  assert (Hne : skipn (Z.to_nat pos) data <> []) by (apply skipn_nonempty; lia).
  pose proof (DecodeRune_size_bounds _ Hne) as Hsz.
  rewrite len_skipn in Hsz by lia.
  destruct (IH (n - 1) (pos + DecodeRune_size (skipn (Z.to_nat pos) data)))
    as [(q & Hq & Hr)|(k & Hk & Hq & Hr)]; try lia.
  - left; exists q; split; [|exact Hr].
    replace n with (n - 1 + 1) by lia; constructor; [lia|lia|exact Hq].
  - right; exists (k + 1); repeat split; try lia.
    + constructor; [lia|lia|exact Hq].
    + rewrite Hr; f_equal; f_equal; lia.
Qed.

(** C7 as stated fails: inside the three-byte character at the head of
    [wide_then_a], the byte at offset 1 decodes as a one-byte error rune,
    and [+#1] from offset 1 stops at offset 2, still inside the character. *)
Lemma forward_rune_step_inside_character :
  addrNumber wide_then_a 1 1 dirPlus 1 true = Ok (2, 2) /\
  DecodeRune_size wide_then_a = 3 /\
  ~ rune_boundary wide_then_a 2.
Proof.
  split; [reflexivity|split; [reflexivity|]].
  assert (H : forall p, rune_boundary wide_then_a p -> p = 0 \/ p = 3 \/ p = 4).
  { induction 1 as [|p Hb IH Hlt]; [auto|].
    destruct IH as [-> | [-> | ->]]; [right; left|right; right|]; try reflexivity.
    revert Hlt; vm_compute; congruence. }
  intros Hb; apply H in Hb; lia.
Qed.

(** C7, as the code has it.  From any offset [hi] of the buffer, [+#n]
    decodes [n] whole runes: it returns the empty range at the end of the
    [n]-th, or signals [AddressOutOfRange] when the buffer ends after fewer
    than [n].  When [hi] is a rune boundary of the buffer, so is the offset
    returned.  On a buffer that starts with a three-byte character, [+#1]
    from 0 stops at 3. *)
Theorem addrNumber_forward_runes :
  (forall (data : list byte) (lo hi n : Z),
     0 <= hi <= len data -> 0 <= n ->
     (exists pos,
        rune_steps data hi n pos /\
        addrNumber data lo hi dirPlus n true = Ok (pos, pos) /\
        hi <= pos <= len data /\
        (rune_boundary data hi -> rune_boundary data pos)) \/
     (exists k,
        0 <= k < n /\ rune_steps data hi k (len data) /\
        addrNumber data lo hi dirPlus n true = Err AddressOutOfRange)) /\
  addrNumber wide_then_a 0 0 dirPlus 1 true = Ok (3, 3) /\
  addrToByteRange LiteralEngine "+#1" 0 wide_then_a = Ok (3, 3).
Proof.
  split; [|split; reflexivity].
  intros data lo hi n Hhi Hn.
  change (addrNumber data lo hi dirPlus n true)
    with (addrNumber_forward data hi n true).
  unfold addrNumber_forward.
  destruct (runes_forward_spec data (loop_fuel data) n hi)
    as [(q & Hq & Hr)|(k & Hk & Hq & Hr)]; try lia.
  - unfold loop_fuel, len; lia.
  - left; exists q; rewrite Hr; cbn [bind fst snd Z.eqb].
    repeat split; try reflexivity; try exact Hq.
    + apply (rune_steps_range _ _ _ _ Hq); lia.
    + apply (rune_steps_range _ _ _ _ Hq); lia.
    + apply rune_steps_boundary with (1 := Hq).
  - right; exists k; rewrite Hr; cbn [bind fst snd].
    destruct (Z.eqb_spec (n - k) 0); [lia|].
    repeat split; try lia; exact Hq.
Qed.

Lemma addrNumber_forward_runes_witness :
  0 <= 0 <= len wide_then_a /\ 0 <= 1 /\
  ((exists pos,
      rune_steps wide_then_a 0 1 pos /\
      addrNumber wide_then_a 0 0 dirPlus 1 true = Ok (pos, pos) /\
      0 <= pos <= len wide_then_a /\
      (rune_boundary wide_then_a 0 -> rune_boundary wide_then_a pos)) \/
   (exists k,
      0 <= k < 1 /\ rune_steps wide_then_a 0 k (len wide_then_a) /\
      addrNumber wide_then_a 0 0 dirPlus 1 true = Err AddressOutOfRange)).
Proof.
  assert (Hr : 0 <= 0 <= len wide_then_a) by (unfold len; cbn; lia).
  split; [exact Hr|]; split; [lia|].
  apply (proj1 addrNumber_forward_runes wide_then_a 0 0 1 Hr); lia.
Defined.

(** ** Forward line steps *)

Lemma len_firstn {A : Type} (l : list A) (p : Z) :
  0 <= p <= len l -> len (firstn (Z.to_nat p) l) = p.
Proof. unfold len; intros Hp; rewrite length_firstn; lia. Qed.

Lemma split_at (data : list byte) (p : Z) :
  0 <= p <= len data ->
  data = firstn (Z.to_nat p) data ++ skipn (Z.to_nat p) data /\
  len (firstn (Z.to_nat p) data) = p.
Proof. intros Hp; split; [symmetry; apply firstn_skipn|apply len_firstn; exact Hp]. Qed.

Lemma index_skipn (data : list byte) (a i : Z) :
  0 <= a <= len data -> 0 <= i ->
  index (skipn (Z.to_nat a) data) i = index data (a + i).
Proof.
  intros Ha Hi; destruct (split_at data a Ha) as [Hd Hl].
  rewrite Hd at 2; rewrite index_app_r by lia; f_equal; lia.
Qed.

Lemma app_cons_assoc {A : Type} (pre : list A) (c : A) (rest : list A) :
  pre ++ c :: rest = (pre ++ [c]) ++ rest.
Proof. rewrite <- app_assoc; reflexivity. Qed.

Lemma len_snoc {A : Type} (pre : list A) (c : A) : len (pre ++ [c]) = len pre + 1.
Proof. rewrite len_app, len_cons, len_nil; lia. Qed.

Lemma index_middle (pre : list byte) (c : byte) (rest : list byte) :
  index (pre ++ c :: rest) (len pre) = Some c.
Proof. rewrite index_app_r by lia; rewrite Z.sub_diag; reflexivity. Qed.

(** The snapping loop stops at the first line boundary from [hi] on. *)
Lemma next_line_start_spec :
  forall (rest pre : list byte) (fuel : nat),
  0 < len pre -> (List.length rest <= fuel)%nat ->
  exists h,
    next_line_start fuel (pre ++ rest) (len pre) = Ok h /\
    len pre <= h <= len (pre ++ rest) /\
    (h = len (pre ++ rest) \/ index (pre ++ rest) (h - 1) = Some nl) /\
    (forall j, len pre <= j < h ->
       j <> len (pre ++ rest) /\ index (pre ++ rest) (j - 1) <> Some nl).
Proof.
  induction rest as [|c rest IH]; intros pre fuel Hpre Hfuel.
  - exists (len pre); rewrite app_nil_r.
    destruct fuel; cbn [next_line_start]; rewrite Z.ltb_irrefl;
      (repeat split; [lia|lia|left; reflexivity|lia|lia]).
  - destruct fuel as [|fuel]; [cbn [List.length] in Hfuel; lia|].
    cbn [next_line_start]; rewrite len_app, len_cons.
    pose proof (len_nonneg rest) as Hr.
    destruct (Z.ltb_spec (len pre) (len pre + (1 + len rest))); [|lia].
    destruct (index_in_range (pre ++ c :: rest) (len pre - 1)) as [d Hd].
    { rewrite len_app, len_cons; lia. }
    rewrite Hd; destruct (is_nl d) eqn:Hnl.
    + exists (len pre); apply is_nl_spec in Hnl; subst d.
      repeat split; try lia; right; exact Hd.
    + destruct (IH (pre ++ [c]) fuel) as (h & Hh & Hrange & Hstop & Hmin).
      { rewrite len_snoc; lia. }
      { cbn [List.length] in Hfuel; lia. }
      rewrite <- app_cons_assoc, len_snoc in *.
      rewrite len_app, len_cons in *.
      exists h; repeat split; try lia; try exact Hh; try exact Hstop.
      destruct (Z.eq_dec j (len pre)) as [->|Hj]; [|apply Hmin; lia].
      rewrite Hd; intros [= ->]; discriminate Hnl.
Qed.

Lemma index_cons_shift (c : byte) (rest : list byte) (k : Z) (x : option byte) :
  0 < k -> index rest (k - 1) = x -> index (c :: rest) (k + 1 - 1) = x.
Proof.
  intros Hk <-; replace (k + 1 - 1) with (k - 1 + 1) by lia.
  apply index_succ; lia.
Qed.

Lemma count_nl_firstn_cons (c : byte) (rest : list byte) (k : Z) :
  0 <= k ->
  count_nl (firstn (Z.to_nat (k + 1)) (c :: rest)) =
  (if is_nl c then 1 else 0) + count_nl (firstn (Z.to_nat k) rest).
Proof. intros Hk; rewrite firstn_succ_cons by lia; reflexivity. Qed.

(** With [n] newlines ahead the forward line loop returns just past the
    [n]-th; [lo] has moved just past the [(n-1)]-th when [n > 1]. *)
Lemma lines_forward_found :
  forall (rest pre : list byte) (fuel : nat) (lo n : Z),
  (List.length rest <= fuel)%nat -> 1 <= n <= count_nl rest ->
  exists k k',
    lines_forward fuel (pre ++ rest) lo (len pre) n =
      Ok (if n =? 1 then lo else len pre + k', len pre + k) /\
    0 < k <= len rest /\
    index rest (k - 1) = Some nl /\
    count_nl (firstn (Z.to_nat k) rest) = n /\
    (1 < n -> 0 < k' < k /\ index rest (k' - 1) = Some nl /\
              count_nl (firstn (Z.to_nat k') rest) = n - 1).
Proof.
  induction rest as [|c rest IH]; intros pre fuel lo n Hfuel Hn;
    cbn [count_nl] in Hn; [lia|].
  destruct fuel as [|fuel]; [cbn [List.length] in Hfuel; lia|].
  assert (Hf : (List.length rest <= fuel)%nat) by (cbn [List.length] in Hfuel; lia).
  cbn [lines_forward]; rewrite index_middle, len_app, !len_cons.
  pose proof (len_nonneg rest) as Hr.
  destruct (Z.ltb_spec (len pre) (len pre + (1 + len rest))); [|lia].
  rewrite app_cons_assoc, <- (len_snoc pre c).
  destruct (is_nl c) eqn:Hc.
  - destruct (Z.eqb_spec (n - 1) 1) as [H2|H2].
    + (* n = 2: lo moves here *)
      destruct (IH (pre ++ [c]) fuel (len (pre ++ [c])) (n - 1) Hf)
        as (k & k' & Hk & Hkr & Hkx & Hkc & _); [lia|].
      exists (k + 1), 1; rewrite Hk, H2, len_snoc.
      destruct (Z.eqb_spec n 1); [lia|]; cbn [Z.eqb].
      split; [f_equal; f_equal; lia|].
      split; [lia|].
      split; [apply index_cons_shift; [lia|exact Hkx]|].
      split; [rewrite count_nl_firstn_cons, Hc by lia; lia|].
      intros _; split; [lia|].
      split; [cbn; apply is_nl_spec in Hc; congruence|].
      change (Z.to_nat 1) with 1%nat; cbn [firstn count_nl]; rewrite Hc; lia.
    + destruct (Z.eqb_spec (n - 1) 0) as [H1|H1].
      * exists 1, 0; destruct (Z.eqb_spec n 1); [|lia].
        rewrite len_snoc.
        split; [reflexivity|].
        split; [lia|].
        split; [cbn; apply is_nl_spec in Hc; congruence|].
        split; [|lia].
        change (Z.to_nat 1) with 1%nat; cbn [firstn count_nl]; rewrite Hc; lia.
      * destruct (IH (pre ++ [c]) fuel lo (n - 1) Hf)
          as (k & k' & Hk & Hkr & Hkx & Hkc & Hlo); [lia|].
        destruct Hlo as (Hk' & Hkx' & Hkc'); [lia|].
        exists (k + 1), (k' + 1); rewrite Hk, len_snoc.
        destruct (Z.eqb_spec (n - 1) 1); [lia|].
        destruct (Z.eqb_spec n 1); [lia|].
        split; [f_equal; f_equal; lia|].
        split; [lia|].
        split; [apply index_cons_shift; [lia|exact Hkx]|].
        split; [rewrite count_nl_firstn_cons, Hc by lia; lia|].
        intros _; split; [lia|].
        split; [apply index_cons_shift; [lia|exact Hkx']|].
        rewrite count_nl_firstn_cons, Hc by lia; lia.
  - destruct (IH (pre ++ [c]) fuel lo n Hf)
      as (k & k' & Hk & Hkr & Hkx & Hkc & Hlo); [lia|].
    exists (k + 1), (k' + 1); rewrite Hk, len_snoc.
    split; [destruct (n =? 1); f_equal; f_equal; lia|].
    split; [lia|].
    split; [apply index_cons_shift; [lia|exact Hkx]|].
    split; [rewrite count_nl_firstn_cons, Hc by lia; lia|].
    intros Hn1; destruct (Hlo Hn1) as (Hk' & Hkx' & Hkc').
    split; [lia|].
    split; [apply index_cons_shift; [lia|exact Hkx']|].
    rewrite count_nl_firstn_cons, Hc by lia; lia.
Qed.

(** With fewer than [n] newlines ahead it runs off the buffer. *)
Lemma lines_forward_exhausted :
  forall (rest pre : list byte) (fuel : nat) (lo n : Z),
  (List.length rest <= fuel)%nat -> 1 <= n -> count_nl rest < n ->
  lines_forward fuel (pre ++ rest) lo (len pre) n = Err AddressOutOfRange.
Proof.
  induction rest as [|c rest IH]; intros pre fuel lo n Hfuel Hn Hc.
  - rewrite app_nil_r; destruct fuel; cbn [lines_forward];
      rewrite Z.ltb_irrefl; reflexivity.
  - destruct fuel as [|fuel]; [cbn [List.length] in Hfuel; lia|].
    assert (Hf : (List.length rest <= fuel)%nat) by (cbn [List.length] in Hfuel; lia).
    cbn [lines_forward]; rewrite index_middle, len_app, !len_cons.
    pose proof (len_nonneg rest) as Hr.
    pose proof (count_nl_nonneg rest) as Hr'.
    destruct (Z.ltb_spec (len pre) (len pre + (1 + len rest))); [|lia].
    rewrite app_cons_assoc, <- (len_snoc pre c).
    cbn [count_nl] in Hc.
    destruct (is_nl c).
    + destruct (Z.eqb_spec (n - 1) 1); [apply IH; [exact Hf|lia|lia]|].
      destruct (Z.eqb_spec (n - 1) 0); [lia|apply IH; [exact Hf|lia|lia]].
    + apply IH; [exact Hf|lia|lia].
Qed.

Lemma slice_from (data : list byte) (h k : Z) :
  slice data h (h + k) = firstn (Z.to_nat k) (skipn (Z.to_nat h) data).
Proof. unfold slice; replace (h + k - h) with k by lia; reflexivity. Qed.

Lemma loop_fuel_enough (data : list byte) (p : Z) :
  (List.length (skipn (Z.to_nat p) data) <= loop_fuel data)%nat.
Proof. unfold loop_fuel; rewrite length_skipn; lia. Qed.

(** The first part of a forward line step: [hi] moves to the first line
    boundary at or after it. *)
Lemma forward_snap (data : list byte) (hi : Z) :
  0 <= hi <= len data ->
  exists h,
    (if 0 <? hi then next_line_start (loop_fuel data) data hi else Ok hi) = Ok h /\
    hi <= h <= len data /\ line_boundary data h /\
    (forall j, hi <= j < h -> ~ line_boundary data j).
Proof.
  intros Hhi; unfold line_boundary.
  destruct (Z.ltb_spec 0 hi) as [Hpos|Hzero].
  - destruct (split_at data hi Hhi) as [Hd Hl].
    destruct (next_line_start_spec (skipn (Z.to_nat hi) data)
                (firstn (Z.to_nat hi) data) (loop_fuel data))
      as (h & Hh & Hr & Hstop & Hmin); [lia|apply loop_fuel_enough|].
    rewrite <- Hd, Hl in *.
    exists h; repeat split; try lia; [exact Hh|right; exact Hstop|].
    intros j Hj Hbj; destruct (Hmin j Hj) as [Hne Hnx].
    destruct Hbj as [H0|[He|Hx]]; [lia|exact (Hne He)|exact (Hnx Hx)].
  - exists hi; split; [reflexivity|].
    split; [lia|]; split; [left; lia|intros j Hj; lia].
Qed.

(** What a forward line step of [n >= 1] lines does: it first moves [hi]
    to the first line boundary [h] at or after it.  With at least [n]
    newlines at or after [h], [hi'] is just past the [n]-th of them and
    [lo'] is where that line starts ([h] for [n = 1], just past the
    [(n-1)]-th newline otherwise).  With fewer than [n] newlines left the
    loop runs off the buffer. *)
Lemma forward_lines_by_newlines (data : list byte) (lo hi n : Z) :
  0 <= hi <= len data -> 1 <= n ->
  exists h,
    hi <= h <= len data /\ line_boundary data h /\
    (forall j, hi <= j < h -> ~ line_boundary data j) /\
    (n <= count_nl (skipn (Z.to_nat h) data) ->
     exists lo' hi',
       addrNumber data lo hi dirPlus n false = Ok (lo', hi') /\
       h <= lo' /\ lo' < hi' <= len data /\
       index data (hi' - 1) = Some nl /\
       count_nl (slice data h hi') = n /\
       count_nl (slice data h lo') = n - 1 /\
       (n = 1 -> lo' = h) /\
       (1 < n -> index data (lo' - 1) = Some nl)) /\
    (count_nl (skipn (Z.to_nat h) data) < n ->
     addrNumber data lo hi dirPlus n false = Err AddressOutOfRange).
Proof.
  intros Hhi Hn.
  change (addrNumber data lo hi dirPlus n false)
    with (addrNumber_forward data hi n false).
  unfold addrNumber_forward.
  destruct (forward_snap data hi Hhi) as (h & Hh & Hr & Hb & Hmin).
  exists h; rewrite Hh; cbn [bind].
  destruct (Z.eqb_spec n 0); [lia|].
  assert (Hh' : 0 <= h <= len data) by lia.
  destruct (split_at data h Hh') as [Hd Hl].
  pose proof (len_skipn data h Hh') as Hlen.
  repeat split; try lia; try exact Hb; try exact Hmin.
  - intros Hcnt.
    destruct (lines_forward_found (skipn (Z.to_nat h) data)
                (firstn (Z.to_nat h) data) (loop_fuel data) h n)
      as (k & k' & Hk & Hkr & Hkx & Hkc & Hlo); [apply loop_fuel_enough|lia|].
    rewrite <- Hd, Hl in Hk.
    rewrite index_skipn in Hkx by lia.
    rewrite <- slice_from in Hkc.
    exists (if n =? 1 then h else h + k'), (h + k).
    split; [exact Hk|].
    assert (Hslice0 : count_nl (slice data h h) = 0).
    { unfold slice; rewrite Z.sub_diag; reflexivity. }
    assert (Hhi' : index data (h + k - 1) = Some nl).
    { replace (h + k - 1) with (h + (k - 1)) by lia; exact Hkx. }
    destruct (Z.eqb_spec n 1) as [H1|H1].
    + split; [lia|]; split; [lia|]; split; [exact Hhi'|].
      split; [exact Hkc|]; split; [lia|]; split; [reflexivity|lia].
    + destruct Hlo as (Hk' & Hkx' & Hkc'); [lia|].
      rewrite index_skipn in Hkx' by lia.
      rewrite <- slice_from in Hkc'.
      split; [lia|]; split; [lia|]; split; [exact Hhi'|].
      split; [exact Hkc|]; split; [exact Hkc'|]; split; [lia|].
      intros _; replace (h + k' - 1) with (h + (k' - 1)) by lia; exact Hkx'.
  - intros Hcnt.
    pose proof (lines_forward_exhausted (skipn (Z.to_nat h) data)
                  (firstn (Z.to_nat h) data) (loop_fuel data) h n
                  (loop_fuel_enough data h) Hn Hcnt) as He.
    rewrite <- Hd, Hl in He; exact He.
Qed.

Lemma count_nl_le_lines_from (data : list byte) (h : Z) :
  count_nl (skipn (Z.to_nat h) data) <= lines_from data h.
Proof.
  unfold lines_from; destruct ((h <? len data) && unterminated data); lia.
Qed.

(** C4, as the design has it.  A forward line step of [n >= 1] lines first
    moves [hi] to the first line boundary [h] at or after it.  When at
    least [n] newlines lie at or after [h], it succeeds: [hi'] is just
    past the [n]-th of them and [lo'] is where that line starts ([h] for
    [n = 1], just past the [(n-1)]-th newline otherwise).  When fewer than
    [n] lines are left at or after [h], an unterminated last line counted
    as one, it signals [AddressOutOfRange]. *)
Theorem addrNumber_forward_lines (data : list byte) (lo hi n : Z) :
  0 <= hi <= len data -> 1 <= n ->
  exists h,
    hi <= h <= len data /\ line_boundary data h /\
    (forall j, hi <= j < h -> ~ line_boundary data j) /\
    (n <= count_nl (skipn (Z.to_nat h) data) ->
     exists lo' hi',
       addrNumber data lo hi dirPlus n false = Ok (lo', hi') /\
       h <= lo' /\ lo' < hi' <= len data /\
       index data (hi' - 1) = Some nl /\
       count_nl (slice data h hi') = n /\
       count_nl (slice data h lo') = n - 1 /\
       (n = 1 -> lo' = h) /\
       (1 < n -> index data (lo' - 1) = Some nl)) /\
    (lines_from data h < n ->
     addrNumber data lo hi dirPlus n false = Err AddressOutOfRange).
Proof.
  intros Hhi Hn.
  destruct (forward_lines_by_newlines data lo hi n Hhi Hn)
    as (h & Hr & Hb & Hmin & Hfound & Hout).
  exists h; split; [exact Hr|]; split; [exact Hb|]; split; [exact Hmin|].
  split; [exact Hfound|].
  intros Hlines; apply Hout.
  pose proof (count_nl_le_lines_from data h); lia.
Qed.

Lemma addrNumber_forward_lines_witness :
  0 <= 0 <= len two_lines /\ 1 <= 1 /\
  exists h,
    0 <= h <= len two_lines /\ line_boundary two_lines h /\
    (forall j, 0 <= j < h -> ~ line_boundary two_lines j) /\
    (1 <= count_nl (skipn (Z.to_nat h) two_lines) ->
     exists lo' hi',
       addrNumber two_lines 0 0 dirPlus 1 false = Ok (lo', hi') /\
       h <= lo' /\ lo' < hi' <= len two_lines /\
       index two_lines (hi' - 1) = Some nl /\
       count_nl (slice two_lines h hi') = 1 /\
       count_nl (slice two_lines h lo') = 1 - 1 /\
       (1 = 1 -> lo' = h) /\
       (1 < 1 -> index two_lines (lo' - 1) = Some nl)) /\
    (lines_from two_lines h < 1 ->
     addrNumber two_lines 0 0 dirPlus 1 false = Err AddressOutOfRange).
Proof.
  split; [unfold len; cbn; lia|].
  split; [lia|].
  apply (addrNumber_forward_lines two_lines 0 0 1); [unfold len; cbn; lia|lia].
Defined.

(** ** Ranges stay within the buffer *)

Lemma runes_forward_bounds (data : list byte) :
  forall fuel n pos n' q,
  0 <= pos <= len data ->
  runes_forward fuel data n pos = Ok (n', q) -> pos <= q <= len data.
Proof.
  induction fuel as [|fuel IH]; intros n pos n' q Hpos; cbn [runes_forward];
    destruct ((0 <? n) && (pos <? len data)) eqn:Hc;
    try discriminate; try (intros [= <- <-]; lia).
  bool_to_prop.
  destruct (Z.ltb_spec pos 0); [discriminate|].
  pose proof (DecodeRune_size_bounds (skipn (Z.to_nat pos) data)) as Hsz.
  rewrite len_skipn in Hsz by lia.
  specialize (Hsz ltac:(apply skipn_nonempty; lia)).
  intros Hr; apply IH in Hr; lia.
Qed.

Lemma next_line_start_bounds (data : list byte) :
  forall fuel hi h,
  hi <= len data ->
  next_line_start fuel data hi = Ok h -> hi <= h <= len data.
Proof.
  induction fuel as [|fuel IH]; intros hi h Hhi; cbn [next_line_start];
    destruct (Z.ltb_spec hi (len data));
    try (intros [= <-]; lia);
    destruct (index data (hi - 1)) as [c|]; try discriminate;
    destruct (is_nl c); try discriminate; try (intros [= <-]; lia).
  intros Hr; apply IH in Hr; lia.
Qed.

Lemma lines_forward_bounds (data : list byte) :
  forall fuel lo hi n lo' hi',
  0 <= lo <= hi ->
  lines_forward fuel data lo hi n = Ok (lo', hi') ->
  0 <= lo' <= hi' /\ hi' <= len data.
Proof.
  induction fuel as [|fuel IH]; intros lo hi n lo' hi' Hlo; cbn [lines_forward];
    destruct (Z.ltb_spec hi (len data)); try discriminate.
  destruct (index data hi) as [c|]; [|discriminate].
  destruct (is_nl c).
  - destruct (n - 1 =? 1); [intros Hr; apply IH in Hr; lia|].
    destruct (n - 1 =? 0); [intros [= <- <-]; lia|].
    intros Hr; apply IH in Hr; lia.
  - intros Hr; apply IH in Hr; lia.
Qed.

Lemma runes_backward_bounds (data : list byte) :
  forall fuel n pos n' q,
  0 <= pos ->
  runes_backward fuel data n pos = Ok (n', q) -> 0 <= q <= pos.
Proof.
  induction fuel as [|fuel IH]; intros n pos n' q Hpos; cbn [runes_backward];
    destruct ((0 <? pos) && (0 <? n)) eqn:Hc;
    try discriminate; try (intros [= <- <-]; lia).
  bool_to_prop.
  destruct (index data pos) as [c|]; [|discriminate].
  destruct (negb (Z.land (byte_val c) 192 =? 128));
    intros Hr; apply IH in Hr; lia.
Qed.

Lemma line_start_bounds (data : list byte) :
  forall fuel lo l,
  0 <= lo -> line_start fuel data lo = Ok l -> 0 <= l <= lo.
Proof.
  induction fuel as [|fuel IH]; intros lo l Hlo; cbn [line_start];
    destruct (Z.ltb_spec 0 lo);
    try (intros [= <-]; lia);
    destruct (index data (lo - 1)) as [c|]; try discriminate;
    destruct (is_nl c); try discriminate; try (intros [= <-]; lia).
  intros Hr; apply IH in Hr; lia.
Qed.

Lemma lines_backward_bounds (data : list byte) :
  forall fuel lo hi n lo' hi',
  lo <= hi ->
  lines_backward fuel data lo hi n = Ok (lo', hi') ->
  0 <= lo' <= hi' /\ hi' <= hi.
Proof.
  induction fuel as [|fuel IH]; intros lo hi n lo' hi' Hlo; cbn [lines_backward];
    destruct (Z.leb_spec 0 lo); try discriminate.
  destruct (0 <? lo).
  - destruct (index data (lo - 1)) as [c|]; [|discriminate]; cbn [bind].
    destruct (is_nl c); cbn [negb].
    + destruct (n - 1 =? 1); [intros Hr; apply IH in Hr; lia|].
      destruct (n - 1 =? 0); [intros [= <- <-]; lia|].
      intros Hr; apply IH in Hr; lia.
    + intros Hr; apply IH in Hr; lia.
  - cbn [bind negb].
    destruct (n - 1 =? 1); [intros Hr; apply IH in Hr; lia|].
    destruct (n - 1 =? 0); [intros [= <- <-]; lia|].
    intros Hr; apply IH in Hr; lia.
Qed.

Lemma addrNumber_forward_bounds (data : list byte) (hi n : Z) (charOffset : bool)
  (lo' hi' : Z) :
  0 <= hi <= len data ->
  addrNumber_forward data hi n charOffset = Ok (lo', hi') ->
  0 <= lo' <= hi' /\ hi' <= len data.
Proof.
  intros Hhi; unfold addrNumber_forward; destruct charOffset.
  - destruct (runes_forward (loop_fuel data) data n hi) as [[n' q]| | |] eqn:Hr;
      cbn [bind fst snd]; try discriminate.
    apply runes_forward_bounds in Hr; [|lia].
    destruct (n' =? 0); [intros [= <- <-]; lia|discriminate].
  - destruct (if 0 <? hi then next_line_start (loop_fuel data) data hi else Ok hi)
      as [h| | |] eqn:Hs; cbn [bind]; try discriminate.
    assert (Hh : hi <= h <= len data).
    { destruct (0 <? hi).
      - apply next_line_start_bounds in Hs; lia.
      - injection Hs as <-; lia. }
    destruct (n =? 0); [intros [= <- <-]; lia|].
    intros Hr; apply lines_forward_bounds in Hr; lia.
Qed.

Lemma addrNumber_backward_bounds (data : list byte) (lo n : Z) (charOffset : bool)
  (lo' hi' : Z) :
  0 <= lo <= len data ->
  addrNumber_backward data lo n charOffset = Ok (lo', hi') ->
  0 <= lo' <= hi' /\ hi' <= lo.
Proof.
  intros Hlo; unfold addrNumber_backward; destruct charOffset.
  - destruct (runes_backward (loop_fuel data) data n lo) as [[n' q]| | |] eqn:Hr;
      cbn [bind fst snd]; try discriminate.
    apply runes_backward_bounds in Hr; [|lia].
    destruct (n' =? 0); [intros [= <- <-]; lia|discriminate].
  - destruct (line_start (loop_fuel data) data lo) as [l| | |] eqn:Hs;
      cbn [bind]; try discriminate.
    apply line_start_bounds in Hs; [|lia].
    destruct (n =? 0); [intros [= <- <-]; lia|].
    intros Hr; apply lines_backward_bounds in Hr; lia.
Qed.

(** Every step of the numeric stepper takes a range of the buffer to a
    range of the buffer. *)
Lemma addrNumber_bounds (data : list byte) (lo hi : Z) (dir : ascii) (n : Z)
  (charOffset : bool) (lo' hi' : Z) :
  0 <= lo <= hi -> hi <= len data ->
  addrNumber data lo hi dir n charOffset = Ok (lo', hi') ->
  0 <= lo' <= hi' /\ hi' <= len data.
Proof.
  intros Hlo Hhi; unfold addrNumber.
  destruct (dir =? dir0)%char.
  - apply addrNumber_forward_bounds; pose proof (len_nonneg data); lia.
  - destruct (dir =? dirPlus)%char; [apply addrNumber_forward_bounds; lia|].
    destruct (dir =? dirMinus)%char; [|discriminate].
    intros Hr; apply addrNumber_backward_bounds in Hr; lia.
Qed.

Lemma addrRegexp_bounds (E : RegexpEngine) (data : list byte) (lo hi : Z)
  (dir : ascii) (pattern : string) (lo' hi' : Z) :
  addrRegexp E data lo hi dir pattern = Ok (lo', hi') ->
  0 <= lo' <= hi' /\ hi' <= len data.
Proof.
  unfold addrRegexp.
  destruct (Compile E pattern) as [re|]; [|discriminate].
  destruct (dir =? dirMinus)%char; [discriminate|].
  destruct ((hi <? 0) || (len data <? hi)) eqn:Hr; [discriminate|].
  bool_to_prop.
  destruct (FindIndex E re (skipn (Z.to_nat hi) data)) as [[m0 m1]|] eqn:Hf.
  - apply FindIndex_bounds in Hf; rewrite len_skipn in Hf by lia.
    intros [= <- <-]; lia.
  - destruct (0 <? hi); [|discriminate].
    destruct (FindIndex E re data) as [[m0 m1]|] eqn:Hf'; [|discriminate].
    apply FindIndex_bounds in Hf'; intros [= <- <-]; lia.
Qed.

Lemma has_comma_drop (n : nat) :
  forall s, has_comma s = false -> has_comma (string_drop n s) = false.
Proof.
  induction n as [|n IH]; intros s Hs; [exact Hs|].
  destruct s as [|c s]; [reflexivity|].
  cbn [string_drop]; apply IH.
  cbn [has_comma] in Hs; apply orb_false_iff in Hs; apply Hs.
Qed.

(** The invariant of the evaluator's loop: [0 <= lo <= hi <= len(data)]
    holds until a comma is met; the comma keeps [lo] and takes [hi] from the
    evaluation of what follows it. *)
Lemma addr_loop_bounds (E : RegexpEngine) (data : list byte) :
  forall fuel addr lo hi dir prevc charOffset lo' hi',
  0 <= lo <= hi -> hi <= len data ->
  addr_loop E fuel data addr lo hi dir prevc charOffset = Ok (lo', hi') ->
  0 <= lo' <= len data /\ 0 <= hi' <= len data /\
  (has_comma addr = false -> lo' <= hi').
Proof.
  assert (Hend : forall lo hi dir charOffset lo' hi',
    0 <= lo <= hi -> hi <= len data ->
    (if negb (dir =? dir0)%char then addrNumber data lo hi dir 1 charOffset
     else Ok (lo, hi)) = Ok (lo', hi') ->
    0 <= lo' <= len data /\ 0 <= hi' <= len data /\ (false = false -> lo' <= hi')).
  { intros lo hi dir co lo' hi' Hlo Hhi.
    destruct (negb (dir =? dir0)%char).
    - intros Hr; apply addrNumber_bounds in Hr; lia.
    - intros [= <- <-]; lia. }
  induction fuel as [|fuel IH];
    intros addr lo hi dir prevc charOffset lo' hi' Hlo Hhi;
    destruct addr as [|c rest]; cbn [addr_loop has_comma];
    try (apply Hend; assumption); try discriminate.
  destruct (c =? ",")%char eqn:Hcomma.
  { destruct rest as [|c' rest].
    - intros [= <- <-]; cbn [orb]; repeat split; try lia; discriminate.
    - destruct (addr_loop E fuel data (String c' rest) hi hi dir0 dir0 false)
        as [[a b]| | |] eqn:Hr; cbn [bind snd]; try discriminate.
      apply IH in Hr; [|lia|lia].
      intros [= <- <-]; cbn [orb]; repeat split; try lia; discriminate. }
  cbn [orb].
  destruct ((c =? "+")%char || (c =? "-")%char).
  { destruct (if (prevc =? "+")%char || (prevc =? "-")%char
              then addrNumber data lo hi prevc 1 charOffset else Ok (lo, hi))
      as [[a b]| | |] eqn:Hs; cbn [bind fst snd]; try discriminate.
    assert (0 <= a <= b /\ b <= len data).
    { destruct ((prevc =? "+")%char || (prevc =? "-")%char).
      - apply addrNumber_bounds in Hs; lia.
      - injection Hs as <- <-; lia. }
    intros Hr; apply IH in Hr; [exact Hr|lia|lia]. }
  destruct (c =? "$")%char.
  { pose proof (len_nonneg data); intros Hr; apply IH in Hr; [exact Hr|lia|lia]. }
  destruct (c =? "#")%char.
  { intros Hr; apply IH in Hr; [exact Hr|lia|lia]. }
  destruct (is_digit c).
  { destruct (Atoi (substring 0 (digits_end rest 1) (String c rest)))
      as [n| | |]; cbn [bind]; try discriminate.
    destruct (addrNumber data lo hi dir n charOffset)
      as [[a b]| | |] eqn:Hs; cbn [bind fst snd]; try discriminate.
    apply addrNumber_bounds in Hs; [|lia|lia].
    intros Hr; apply IH in Hr; [|lia|lia].
    destruct Hr as (H1 & H2 & H3); repeat split; try lia.
    intros Hc; apply H3.
    apply (has_comma_drop _ (String c rest)); cbn [has_comma].
    rewrite Hcomma; exact Hc. }
  destruct (c =? "/")%char eqn:Hslash; [|discriminate].
  destruct (String.length (String c rest) <? fst (regexp_end rest 1))%nat;
    [discriminate|].
  destruct (addrRegexp E data lo hi dir
              (substring 1 (fst (regexp_end rest 1) - 1) (String c rest)))
    as [[a b]| | |] eqn:Hs; cbn [bind fst snd]; try discriminate.
  apply addrRegexp_bounds in Hs.
  intros Hr; apply IH in Hr; [|lia|lia].
  destruct Hr as (H1 & H2 & H3); repeat split; try lia.
  intros Hc; apply H3.
  apply (has_comma_drop _ (String c rest)); cbn [has_comma].
  rewrite Hcomma; exact Hc.
Qed.



(** ** Every loop is given enough iterations *)

Lemma bind_not_OutOfFuel {A B : Type} (x : outcome A) (k : A -> outcome B) :
  x <> OutOfFuel -> (forall a, x = Ok a -> k a <> OutOfFuel) ->
  bind x k <> OutOfFuel.
Proof.
  intros Hx Hk; destruct x as [a| | |]; cbn [bind];
    [apply Hk; reflexivity|discriminate|discriminate|congruence].
Qed.

Lemma runes_forward_total (data : list byte) :
  forall fuel n pos,
  (pos < 0 -> 1 <= Z.of_nat fuel) ->
  (0 <= pos -> len data - pos <= Z.of_nat fuel) ->
  runes_forward fuel data n pos <> OutOfFuel.
Proof.
  induction fuel as [|fuel IH]; intros n pos Hneg Hfuel; cbn [runes_forward];
    destruct ((0 <? n) && (pos <? len data)) eqn:Hc; try discriminate;
    bool_to_prop; [lia|].
  destruct (Z.ltb_spec pos 0); [discriminate|].
  pose proof (DecodeRune_size_bounds (skipn (Z.to_nat pos) data)
                ltac:(apply skipn_nonempty; lia)) as Hsz.
  apply IH; lia.
Qed.

Lemma next_line_start_total (data : list byte) :
  forall fuel hi,
  len data - hi <= Z.of_nat fuel ->
  next_line_start fuel data hi <> OutOfFuel.
Proof.
  induction fuel as [|fuel IH]; intros hi Hfuel; cbn [next_line_start];
    destruct (Z.ltb_spec hi (len data)); try discriminate; try lia.
  destruct (index data (hi - 1)) as [c|]; [|discriminate].
  destruct (is_nl c); [discriminate|apply IH; lia].
Qed.

Lemma lines_forward_total (data : list byte) :
  forall fuel lo hi n,
  (hi < 0 -> 1 <= Z.of_nat fuel) ->
  (0 <= hi -> len data - hi <= Z.of_nat fuel) ->
  lines_forward fuel data lo hi n <> OutOfFuel.
Proof.
  induction fuel as [|fuel IH]; intros lo hi n Hneg Hfuel; cbn [lines_forward];
    destruct (Z.ltb_spec hi (len data)); try discriminate; try lia.
  destruct (index data hi) as [c|] eqn:Hi; [|discriminate].
  apply index_Some_range in Hi.
  destruct (is_nl c).
  - destruct (n - 1 =? 1); [apply IH; lia|].
    destruct (n - 1 =? 0); [discriminate|apply IH; lia].
  - apply IH; lia.
Qed.

Lemma runes_backward_total (data : list byte) :
  forall fuel n pos,
  (len data < pos -> 1 <= Z.of_nat fuel) ->
  (pos <= len data -> pos <= Z.of_nat fuel) ->
  runes_backward fuel data n pos <> OutOfFuel.
Proof.
  induction fuel as [|fuel IH]; intros n pos Hbig Hfuel; cbn [runes_backward];
    destruct ((0 <? pos) && (0 <? n)) eqn:Hc; try discriminate;
    bool_to_prop; [lia|].
  destruct (index data pos) as [c|] eqn:Hi; [|discriminate].
  apply index_Some_range in Hi.
  destruct (negb (Z.land (byte_val c) 192 =? 128)); apply IH; lia.
Qed.

Lemma line_start_total (data : list byte) :
  forall fuel lo,
  (lo <= len data -> lo <= Z.of_nat fuel) ->
  line_start fuel data lo <> OutOfFuel.
Proof.
  induction fuel as [|fuel IH]; intros lo Hfuel; cbn [line_start];
    destruct (Z.ltb_spec 0 lo); try discriminate;
    (destruct (index data (lo - 1)) as [c|] eqn:Hi; [|discriminate]);
    apply index_Some_range in Hi;
    (destruct (is_nl c); [discriminate|]); [lia|apply IH; lia].
Qed.

Lemma line_start_le_len (data : list byte) :
  forall fuel lo l, line_start fuel data lo = Ok l -> l <= len data.
Proof.
  pose proof (len_nonneg data) as Hd.
  induction fuel as [|fuel IH]; intros lo l; cbn [line_start];
    destruct (Z.ltb_spec 0 lo); try (intros [= <-]; lia);
    (destruct (index data (lo - 1)) as [c|] eqn:Hi; [|discriminate]);
    apply index_Some_range in Hi;
    (destruct (is_nl c); [intros [= <-]; lia|]); [discriminate|apply IH].
Qed.

Lemma lines_backward_total (data : list byte) :
  forall fuel lo hi n,
  (len data < lo -> 1 <= Z.of_nat fuel) ->
  (lo <= len data -> lo + 1 <= Z.of_nat fuel) ->
  lines_backward fuel data lo hi n <> OutOfFuel.
Proof.
  pose proof (len_nonneg data) as Hd.
  induction fuel as [|fuel IH]; intros lo hi n Hbig Hfuel; cbn [lines_backward];
    destruct (Z.leb_spec 0 lo); try discriminate; try lia.
  destruct (Z.ltb_spec 0 lo).
  - destruct (index data (lo - 1)) as [c|] eqn:Hi; [|discriminate].
    apply index_Some_range in Hi; cbn [bind].
    destruct (is_nl c); cbn [negb]; [|apply IH; lia].
    destruct (n - 1 =? 1); [apply IH; lia|].
    destruct (n - 1 =? 0); [discriminate|apply IH; lia].
  - cbn [bind negb].
    destruct (n - 1 =? 1); [apply IH; lia|].
    destruct (n - 1 =? 0); [discriminate|apply IH; lia].
Qed.

Lemma loop_fuel_val (data : list byte) :
  Z.of_nat (loop_fuel data) = len data + 1.
Proof. unfold loop_fuel, len; lia. Qed.

(** [addrNumber] returns, signals an error or panics: the iterations its
    loops are given are always enough. *)
Lemma addrNumber_total (data : list byte) (lo hi : Z) (dir : ascii) (n : Z)
  (charOffset : bool) :
  addrNumber data lo hi dir n charOffset <> OutOfFuel.
Proof.
  pose proof (loop_fuel_val data) as Hf; pose proof (len_nonneg data) as Hd.
  assert (Hfwd : forall hi, addrNumber_forward data hi n charOffset <> OutOfFuel).
  { intros h; unfold addrNumber_forward; destruct charOffset.
    - apply bind_not_OutOfFuel; [apply runes_forward_total; lia|].
      intros r _; destruct (fst r =? 0); discriminate.
    - apply bind_not_OutOfFuel.
      + destruct (Z.ltb_spec 0 h); [apply next_line_start_total; lia|discriminate].
      + intros h1 _; destruct (n =? 0); [discriminate|].
        apply lines_forward_total; lia. }
  unfold addrNumber.
  destruct (dir =? dir0)%char; [apply Hfwd|].
  destruct (dir =? dirPlus)%char; [apply Hfwd|].
  destruct (dir =? dirMinus)%char; [|discriminate].
  unfold addrNumber_backward; destruct charOffset.
  - apply bind_not_OutOfFuel; [apply runes_backward_total; lia|].
    intros r _; destruct (fst r =? 0); discriminate.
  - apply bind_not_OutOfFuel; [apply line_start_total; lia|].
    intros l Hl; apply line_start_le_len in Hl.
    destruct (n =? 0); [discriminate|].
    apply lines_backward_total; lia.
Qed.

Lemma addrRegexp_total (E : RegexpEngine) (data : list byte) (lo hi : Z)
  (dir : ascii) (pattern : string) :
  addrRegexp E data lo hi dir pattern <> OutOfFuel.
Proof.
  unfold addrRegexp.
  destruct (Compile E pattern) as [re|]; [|discriminate].
  destruct (dir =? dirMinus)%char; [discriminate|].
  destruct ((hi <? 0) || (len data <? hi)); [discriminate|].
  destruct (FindIndex E re (skipn (Z.to_nat hi) data)) as [[m0 m1]|];
    [discriminate|].
  destruct (0 <? hi); [|discriminate].
  destruct (FindIndex E re data) as [[m0 m1]|]; discriminate.
Qed.

Lemma addr_loop_total (E : RegexpEngine) (data : list byte) :
  forall fuel addr lo hi dir prevc charOffset,
  (String.length addr <= fuel)%nat ->
  addr_loop E fuel data addr lo hi dir prevc charOffset <> OutOfFuel.
Proof.
  assert (Hend : forall lo hi dir charOffset,
    (if negb (dir =? dir0)%char then addrNumber data lo hi dir 1 charOffset
     else Ok (lo, hi)) <> OutOfFuel).
  { intros lo hi dir co; destruct (negb (dir =? dir0)%char);
      [apply addrNumber_total|discriminate]. }
  induction fuel as [|fuel IH]; intros addr lo hi dir prevc charOffset Hfuel;
    destruct addr as [|c rest]; cbn [addr_loop]; try apply Hend;
    cbn [String.length] in Hfuel; [lia|].
  assert (Hrest : (String.length rest <= fuel)%nat) by lia.
  destruct (c =? ",")%char.
  { destruct rest as [|c' rest]; [discriminate|].
    apply bind_not_OutOfFuel; [apply IH; exact Hrest|discriminate]. }
  destruct ((c =? "+")%char || (c =? "-")%char).
  { apply bind_not_OutOfFuel; [|intros r _; apply IH; exact Hrest].
    destruct ((prevc =? "+")%char || (prevc =? "-")%char);
      [apply addrNumber_total|discriminate]. }
  destruct (c =? "$")%char; [apply IH; exact Hrest|].
  destruct (c =? "#")%char; [apply IH; exact Hrest|].
  destruct (is_digit c).
  { apply bind_not_OutOfFuel; [unfold Atoi; cbv zeta|].
    - destruct (_ <=? _); discriminate.
    - intros n _; apply bind_not_OutOfFuel; [apply addrNumber_total|].
      intros r _; apply IH.
      pose proof (digits_end_pos rest 1).
      rewrite length_string_drop; cbn [String.length]; lia. }
  destruct (c =? "/")%char; [|discriminate].
  destruct (String.length (String c rest) <? fst (regexp_end rest 1))%nat;
    [discriminate|].
  apply bind_not_OutOfFuel; [apply addrRegexp_total|].
  intros r _; apply IH.
  pose proof (regexp_end_pos rest 1) as [Hi Hj].
  rewrite length_string_drop; cbn [String.length].
  destruct (Nat.eqb_spec (snd (regexp_end rest 1)) 0); lia.
Qed.

(** [addrToByteRange] returns, signals an error or panics, on every
    address, start and buffer. *)
Lemma addrToByteRange_total (E : RegexpEngine) (addr : string) (start : Z)
  (data : list byte) :
  addrToByteRange E addr start data <> OutOfFuel.
Proof. unfold addrToByteRange; apply addr_loop_total; lia. Qed.

(** ** Where the numeric stepper panics *)

Lemma runes_forward_no_panic (data : list byte) :
  forall fuel n pos p,
  0 <= pos -> runes_forward fuel data n pos <> Panic p.
Proof.
  induction fuel as [|fuel IH]; intros n pos p Hpos; cbn [runes_forward];
    destruct ((0 <? n) && (pos <? len data)) eqn:Hc; try discriminate.
  bool_to_prop; destruct (Z.ltb_spec pos 0); [lia|].
  pose proof (DecodeRune_size_bounds (skipn (Z.to_nat pos) data)
                ltac:(apply skipn_nonempty; lia)) as Hsz.
  apply IH; lia.
Qed.

Lemma next_line_start_no_panic (data : list byte) :
  forall fuel hi p,
  0 < hi -> next_line_start fuel data hi <> Panic p.
Proof.
  induction fuel as [|fuel IH]; intros hi p Hhi; cbn [next_line_start];
    destruct (Z.ltb_spec hi (len data)); try discriminate;
    (destruct (index_in_range data (hi - 1)) as [c ->]; [lia|]);
    (destruct (is_nl c); [discriminate|]); [discriminate|apply IH; lia].
Qed.

Lemma lines_forward_no_panic (data : list byte) :
  forall fuel lo hi n p,
  0 <= hi -> lines_forward fuel data lo hi n <> Panic p.
Proof.
  induction fuel as [|fuel IH]; intros lo hi n p Hhi; cbn [lines_forward];
    destruct (Z.ltb_spec hi (len data)); try discriminate.
  destruct (index_in_range data hi) as [c ->]; [lia|].
  destruct (is_nl c).
  - destruct (n - 1 =? 1); [apply IH; lia|].
    destruct (n - 1 =? 0); [discriminate|apply IH; lia].
  - apply IH; lia.
Qed.

Lemma runes_backward_no_panic (data : list byte) :
  forall fuel n pos p,
  pos < len data -> runes_backward fuel data n pos <> Panic p.
Proof.
  induction fuel as [|fuel IH]; intros n pos p Hpos; cbn [runes_backward];
    destruct ((0 <? pos) && (0 <? n)) eqn:Hc; try discriminate.
  bool_to_prop.
  destruct (index_in_range data pos) as [c ->]; [lia|].
  destruct (negb (Z.land (byte_val c) 192 =? 128)); apply IH; lia.
Qed.

Lemma line_start_no_panic (data : list byte) :
  forall fuel lo p,
  lo <= len data -> line_start fuel data lo <> Panic p.
Proof.
  induction fuel as [|fuel IH]; intros lo p Hlo; cbn [line_start];
    destruct (Z.ltb_spec 0 lo); try discriminate;
    (destruct (index_in_range data (lo - 1)) as [c ->]; [lia|]);
    (destruct (is_nl c); [discriminate|]); [discriminate|apply IH; lia].
Qed.

Lemma lines_backward_no_panic (data : list byte) :
  forall fuel lo hi n p,
  lo <= len data -> lines_backward fuel data lo hi n <> Panic p.
Proof.
  induction fuel as [|fuel IH]; intros lo hi n p Hlo; cbn [lines_backward];
    destruct (Z.leb_spec 0 lo); try discriminate.
  destruct (Z.ltb_spec 0 lo).
  - destruct (index_in_range data (lo - 1)) as [c ->]; [lia|]; cbn [bind].
    destruct (is_nl c); cbn [negb]; [|apply IH; lia].
    destruct (n - 1 =? 1); [apply IH; lia|].
    destruct (n - 1 =? 0); [discriminate|apply IH; lia].
  - cbn [bind negb].
    destruct (n - 1 =? 1); [apply IH; lia|].
    destruct (n - 1 =? 0); [discriminate|apply IH; lia].
Qed.

Lemma bind_no_panic {A B : Type} (x : outcome A) (k : A -> outcome B)
  (p : PanicKind) :
  x <> Panic p -> (forall a, x = Ok a -> k a <> Panic p) -> bind x k <> Panic p.
Proof.
  intros Hx Hk; destruct x as [a| |q|]; cbn [bind];
    [apply Hk; reflexivity|discriminate|congruence|discriminate].
Qed.

(** From a range of the buffer, [addrNumber] panics in one case only: a
    backward rune step of at least one rune taken with [lo] at the end of a
    non-empty buffer, where its loop reads [data[len(data)]]. *)
Lemma addrNumber_panics_iff (data : list byte) (lo hi : Z) (dir : ascii)
  (n : Z) (charOffset : bool) :
  0 <= lo <= hi -> hi <= len data ->
  (exists p, addrNumber data lo hi dir n charOffset = Panic p) <->
  (dir = dirMinus /\ charOffset = true /\ 0 < n /\ 0 < lo /\ lo = len data).
Proof.
  intros Hlo Hhi; pose proof (len_nonneg data) as Hd; split.
  - intros [p Hp]; revert Hp; unfold addrNumber.
    assert (Hfwd : forall h, 0 <= h <= len data ->
              addrNumber_forward data h n charOffset <> Panic p).
    { intros h Hh; unfold addrNumber_forward; destruct charOffset.
      - apply bind_no_panic; [apply runes_forward_no_panic; lia|].
        intros r _; destruct (fst r =? 0); discriminate.
      - apply bind_no_panic.
        + destruct (Z.ltb_spec 0 h); [apply next_line_start_no_panic; lia|discriminate].
        + intros h1 Hh1; destruct (n =? 0); [discriminate|].
          apply lines_forward_no_panic.
          destruct (Z.ltb_spec 0 h);
            [apply next_line_start_bounds in Hh1; lia|injection Hh1 as <-; lia]. }
    destruct (dir =? dir0)%char; [intros Hp; apply Hfwd in Hp; [contradiction|lia]|].
    destruct (dir =? dirPlus)%char; [intros Hp; apply Hfwd in Hp; [contradiction|lia]|].
    destruct (Ascii.eqb_spec dir dirMinus) as [->|]; [|discriminate].
    unfold addrNumber_backward; destruct charOffset.
    + intros Hp.
      assert (Hidle : ~ (0 < lo /\ 0 < n) ->
                runes_backward (loop_fuel data) data n lo <> Panic p).
      { intros Hno; destruct (loop_fuel data); cbn [runes_backward];
          destruct (Z.ltb_spec 0 lo), (Z.ltb_spec 0 n); cbn [andb];
          try discriminate; lia. }
      destruct (Z_lt_dec 0 n) as [Hn|Hn], (Z_lt_dec 0 lo) as [Hl|Hl],
        (Z.eq_dec lo (len data)) as [He|He];
        try (repeat split; assumption); exfalso; revert Hp;
        (apply bind_no_panic; [|intros r _; destruct (fst r =? 0); discriminate]);
        first [apply Hidle; lia|apply runes_backward_no_panic; lia].
    + intros Hp; exfalso; revert Hp.
      apply bind_no_panic; [apply line_start_no_panic; lia|].
      intros l Hl; apply line_start_le_len in Hl.
      destruct (n =? 0); [discriminate|apply lines_backward_no_panic; exact Hl].
  - intros (-> & -> & Hn & Hl & ->); exists IndexOutOfRange.
    change (addrNumber data (len data) hi dirMinus n true)
      with (addrNumber_backward data (len data) n true).
    unfold addrNumber_backward, loop_fuel; cbn [runes_backward].
    destruct (Z.ltb_spec 0 (len data)), (Z.ltb_spec 0 n); try lia; cbn [andb].
    replace (index data (len data)) with (@None byte); [reflexivity|].
    symmetry; apply index_None_iff; lia.
Qed.

Lemma addrNumber_panics_iff_witness :
  0 <= 1 <= 1 /\ 1 <= len [x61] /\
  ((exists p, addrNumber [x61] 1 1 dirMinus 1 true = Panic p) <->
   (dirMinus = dirMinus /\ true = true /\ 0 < 1 /\ 0 < 1 /\ 1 = len [x61])).
Proof.
  split; [lia|]; split; [unfold len; cbn; lia|].
  apply (addrNumber_panics_iff [x61] 1 1 dirMinus 1 true); [lia|unfold len; cbn; lia].
Defined.

(** ** Line numbers and offsets *)

(** Newlines before an offset: [count_nl (firstn (Z.to_nat k) data)] is the
    number of newline bytes among [data[0:k]]. *)
Lemma count_before_le (data : list byte) :
  forall a b, 0 <= a <= b ->
  count_nl (firstn (Z.to_nat a) data) <= count_nl (firstn (Z.to_nat b) data).
Proof.
  induction data as [|d data IH]; intros a b Hab.
  - rewrite !firstn_nil; lia.
  - destruct (Z.eq_dec a 0) as [-> | Ha].
    + cbn [Z.to_nat firstn count_nl]; apply count_nl_nonneg.
    + replace a with (a - 1 + 1) by lia; replace b with (b - 1 + 1) by lia.
      rewrite !count_nl_firstn_cons by lia.
      specialize (IH (a - 1) (b - 1)); lia.
Qed.

Lemma count_before_total (data : list byte) (k : Z) :
  count_nl (firstn (Z.to_nat k) data) <= count_nl data.
Proof.
  rewrite <- (firstn_skipn (Z.to_nat k) data) at 2.
  rewrite count_nl_app; pose proof (count_nl_nonneg (skipn (Z.to_nat k) data)); lia.
Qed.

Lemma count_before_all (data : list byte) (k : Z) :
  len data <= k -> count_nl (firstn (Z.to_nat k) data) = count_nl data.
Proof. unfold len; intros Hk; rewrite firstn_all2 by lia; reflexivity. Qed.

Lemma count_before_step (data : list byte) :
  forall b c, index data b = Some c ->
  count_nl (firstn (Z.to_nat (b + 1)) data) =
  count_nl (firstn (Z.to_nat b) data) + (if is_nl c then 1 else 0).
Proof.
  induction data as [|d data IH]; intros b c Hb;
    [rewrite index_nil in Hb; discriminate|].
  pose proof (index_Some_range _ _ _ Hb) as Hr.
  destruct (Z.eq_dec b 0) as [-> | Hne].
  - rewrite index_0 in Hb; injection Hb as ->.
    change (Z.to_nat (0 + 1)) with 1%nat; change (Z.to_nat 0) with 0%nat.
    cbn [firstn count_nl]; destruct (is_nl c); lia.
  - replace b with (b - 1 + 1) in Hb |- * by lia.
    rewrite index_succ in Hb by lia.
    rewrite !count_nl_firstn_cons by lia.
    rewrite (IH _ _ Hb); lia.
Qed.

Lemma count_before_slice (data : list byte) :
  forall a b, 0 <= a <= b ->
  count_nl (firstn (Z.to_nat b) data) =
  count_nl (firstn (Z.to_nat a) data) + count_nl (slice data a b).
Proof.
  unfold slice; induction data as [|d data IH]; intros a b Hab.
  - rewrite skipn_nil, !firstn_nil; reflexivity.
  - destruct (Z.eq_dec a 0) as [-> | Ha].
    + rewrite Z.sub_0_r; reflexivity.
    + replace (b - a) with (b - 1 - (a - 1)) by lia.
      replace (Z.to_nat a) with (S (Z.to_nat (a - 1))) by lia.
      replace (Z.to_nat b) with (S (Z.to_nat (b - 1))) by lia.
      cbn [firstn skipn count_nl]; rewrite (IH (a - 1) (b - 1)) by lia; lia.
Qed.

(** An offset just past a newline has one more newline before it than any
    earlier offset. *)
Lemma count_before_lt (data : list byte) (a b : Z) :
  0 <= a < b -> index data (b - 1) = Some nl ->
  count_nl (firstn (Z.to_nat a) data) < count_nl (firstn (Z.to_nat b) data).
Proof.
  intros Hab Hb; pose proof (count_before_step data (b - 1) nl Hb) as Hs.
  replace (b - 1 + 1) with b in Hs by lia; cbn [is_nl nl] in Hs.
  pose proof (count_before_le data a (b - 1)); lia.
Qed.

Lemma byteToLine_range_count (rest : list byte) :
  forall j i l, j <= i ->
  byteToLine_range rest j i l = l + count_nl (firstn (Z.to_nat (i - j)) rest).
Proof.
  induction rest as [|c rest IH]; intros j i l Hji; cbn [byteToLine_range].
  - rewrite firstn_nil; cbn [count_nl]; lia.
  - destruct (Z.eqb_spec j i) as [-> | Hne].
    + rewrite Z.sub_diag; cbn [Z.to_nat firstn count_nl]; lia.
    + rewrite IH by lia.
      replace (i - j) with (i - (j + 1) + 1) by lia.
      rewrite count_nl_firstn_cons by lia; destruct (is_nl c); lia.
Qed.

Lemma byteToLine_range_past (rest : list byte) :
  forall j i l, i < j -> byteToLine_range rest j i l = l + count_nl rest.
Proof.
  induction rest as [|c rest IH]; intros j i l Hij; cbn [byteToLine_range count_nl];
    [lia|].
  destruct (Z.eqb_spec j i); [lia|].
  rewrite IH by lia; destruct (is_nl c); lia.
Qed.

Lemma byteToLine_eq (data : list byte) (k : Z) :
  0 <= k -> byteToLine data k = 1 + count_nl (firstn (Z.to_nat k) data).
Proof.
  intros Hk; unfold byteToLine; rewrite byteToLine_range_count by lia.
  rewrite Z.sub_0_r; reflexivity.
Qed.

Lemma byteToLine_count_bounds (data : list byte) (k : Z) :
  (k < 0 -> byteToLine data k = lineCount data) /\
  (len data <= k -> byteToLine data k = lineCount data) /\
  1 <= byteToLine data k /\ byteToLine data k <= lineCount data.
Proof.
  assert (Hneg : k < 0 -> byteToLine data k = lineCount data).
  { intros Hi; unfold byteToLine, lineCount; apply byteToLine_range_past; lia. }
  assert (Hbig : len data <= k -> byteToLine data k = lineCount data).
  { intros Hk; pose proof (len_nonneg data); rewrite byteToLine_eq by lia.
    unfold lineCount; rewrite count_before_all by exact Hk; reflexivity. }
  split; [exact Hneg|]; split; [exact Hbig|].
  pose proof (count_nl_nonneg data).
  destruct (Z_lt_dec k 0) as [Hk|Hk]; [rewrite Hneg by exact Hk; unfold lineCount; lia|].
  rewrite byteToLine_eq by lia; unfold lineCount.
  pose proof (count_before_total data k).
  pose proof (count_nl_nonneg (firstn (Z.to_nat k) data)); lia.
Qed.

(** [byteToLine] is one more than the number of newlines before the offset;
    an offset outside the buffer gets the number of the last line. *)
Theorem byteToLine_count (data : list byte) (i : Z) :
  (0 <= i -> byteToLine data i = 1 + count_nl (firstn (Z.to_nat i) data)) /\
  (i < 0 \/ len data <= i -> byteToLine data i = lineCount data) /\
  1 <= byteToLine data i <= lineCount data /\
  (forall j, 0 <= i <= j -> byteToLine data i <= byteToLine data j).
Proof.
  assert (Hneg : i < 0 -> byteToLine data i = lineCount data).
  { intros Hi; unfold byteToLine, lineCount; apply byteToLine_range_past; lia. }
  split; [apply byteToLine_eq|]; split.
  - intros [Hi|Hi]; [apply Hneg; exact Hi|].
    pose proof (len_nonneg data); rewrite byteToLine_eq by lia.
    unfold lineCount; rewrite count_before_all by exact Hi; reflexivity.
  - split.
    + destruct (Z_lt_dec i 0) as [Hi|Hi].
      * rewrite Hneg by exact Hi; unfold lineCount.
        pose proof (count_nl_nonneg data); lia.
      * rewrite byteToLine_eq by lia; unfold lineCount.
        pose proof (count_before_total data i).
        pose proof (count_nl_nonneg (firstn (Z.to_nat i) data)); lia.
    + intros j Hij; rewrite !byteToLine_eq by lia.
      pose proof (count_before_le data i j Hij); lia.
Qed.

(** The offset of a line start is the one [lineToByte] gives for its line
    number. *)
Lemma lineToByte_unique (data : list byte) (k : Z) :
  0 <= k <= len data -> k = 0 \/ index data (k - 1) = Some nl ->
  lineToByte data (count_nl (firstn (Z.to_nat k) data) + 1) = k.
Proof.
  intros Hk [-> | Hx]; [reflexivity|].
  pose proof (index_Some_range _ _ _ Hx) as Hr.
  pose proof (count_before_lt data 0 k ltac:(lia) Hx) as Hpos.
  cbn [Z.to_nat firstn count_nl] in Hpos.
  pose proof (count_before_total data k) as Htot.
  unfold lineToByte.
  destruct (Z.leb_spec (count_nl (firstn (Z.to_nat k) data) + 1) 1); [lia|].
  destruct (lineToByte_range_found (len data) data 0
              (count_nl (firstn (Z.to_nat k) data) + 1 - 1))
    as (k' & -> & Hr' & Hx' & Hc'); [lia|].
  cbn [Z.add]; destruct (Z.lt_trichotomy k' k) as [Hlt|[Heq|Hgt]]; [|exact Heq|].
  - pose proof (count_before_lt data k' k ltac:(lia) Hx); lia.
  - pose proof (count_before_lt data k k' ltac:(lia) Hx'); lia.
Qed.

Lemma lineToByte_cases (data : list byte) (m : Z) :
  (m <= 1 /\ lineToByte data m = 0) \/
  (1 < m <= lineCount data /\ 0 < lineToByte data m <= len data /\
     index data (lineToByte data m - 1) = Some nl /\
     count_nl (firstn (Z.to_nat (lineToByte data m)) data) = m - 1) \/
  (lineCount data < m /\ lineToByte data m = len data).
Proof.
  pose proof (count_nl_nonneg data) as Hc; unfold lineCount, lineToByte.
  destruct (Z.leb_spec m 1) as [Hm|Hm]; [left; split; [exact Hm|reflexivity]|].
  destruct (Z_le_dec m (1 + count_nl data)) as [Hm'|Hm'].
  - right; left; split; [lia|].
    destruct (lineToByte_range_found (len data) data 0 (m - 1))
      as (k & -> & Hr & Hx & Hk); [lia|].
    cbn [Z.add]; split; [lia|]; split; [exact Hx|exact Hk].
  - right; right; split; [lia|apply lineToByte_range_clamped; lia].
Qed.

Lemma lineToByte_mono (data : list byte) (n m : Z) :
  n <= m -> lineToByte data n <= lineToByte data m.
Proof.
  intros Hnm; pose proof (len_nonneg data) as Hd.
  assert (Hlc : 1 <= lineCount data)
    by (unfold lineCount; pose proof (count_nl_nonneg data); lia).
  destruct (lineToByte_cases data n) as [[_ ->]|[(Hn & Hrn & Hxn & Hkn)|[Hn ->]]].
  - destruct (lineToByte_cases data m) as [[_ ->]|[(_ & Hr & _)|[_ ->]]]; lia.
  - destruct (lineToByte_cases data m)
      as [[Hm _]|[(Hm & Hrm & Hxm & Hkm)|[_ ->]]]; [lia| |lia].
    destruct (Z_le_dec (lineToByte data n) (lineToByte data m)) as [Hle|Hgt];
      [exact Hle|].
    pose proof (count_before_lt data (lineToByte data m) (lineToByte data n)
                  ltac:(lia) Hxn); lia.
  - destruct (lineToByte_cases data m) as [[Hm _]|[(Hm & _)|[_ ->]]]; lia.
Qed.

Lemma lineToByte_in_buffer (data : list byte) (n : Z) :
  0 <= lineToByte data n <= len data.
Proof.
  pose proof (len_nonneg data).
  destruct (lineToByte_cases data n) as [[_ ->]|[(_ & Hr & _)|[_ ->]]]; lia.
Qed.

Lemma lineToByte_count_before (data : list byte) (n : Z) :
  1 <= n <= lineCount data ->
  count_nl (firstn (Z.to_nat (lineToByte data n)) data) = n - 1.
Proof.
  intros Hn; destruct (lineToByte_cases data n)
    as [[Hn1 ->]|[(_ & _ & _ & Hk)|[Hn1 _]]];
    [cbn [Z.to_nat firstn count_nl]; lia|exact Hk|lia].
Qed.

(** [lineToByte] stays within the buffer, lands on a line boundary, has
    [n - 1] newlines before it for a line of the buffer, and grows with the
    line number. *)
Theorem lineToByte_properties (data : list byte) (n : Z) :
  0 <= lineToByte data n <= len data /\
  line_boundary data (lineToByte data n) /\
  (1 <= n <= lineCount data ->
     count_nl (firstn (Z.to_nat (lineToByte data n)) data) = n - 1) /\
  (forall m, n <= m -> lineToByte data n <= lineToByte data m) /\
  (forall m, 1 <= n < m -> m <= lineCount data ->
     lineToByte data n < lineToByte data m).
Proof.
  split; [apply lineToByte_in_buffer|]; split.
  { unfold line_boundary.
    destruct (lineToByte_cases data n) as [[_ ->]|[(_ & _ & Hx & _)|[_ ->]]]; auto. }
  split; [apply lineToByte_count_before|].
  split; [intros m; apply lineToByte_mono|].
  intros m Hnm Hm.
  pose proof (lineToByte_count_before data n ltac:(lia)) as Hkn.
  pose proof (lineToByte_count_before data m ltac:(lia)) as Hkm.
  pose proof (lineToByte_in_buffer data m) as Hrm.
  destruct (Z_lt_dec (lineToByte data n) (lineToByte data m)) as [Hlt|Hge];
    [exact Hlt|].
  pose proof (count_before_le data (lineToByte data m) (lineToByte data n)
                ltac:(lia)); lia.
Qed.

(** Every offset of the buffer lies in the line [byteToLine] reports for it:
    at or after the start of that line, with no newline in between, and
    before the start of the next line.  A line start is given back
    unchanged. *)
Theorem lineToByte_byteToLine (data : list byte) (i : Z) :
  0 <= i <= len data ->
  lineToByte data (byteToLine data i) <= i /\
  count_nl (slice data (lineToByte data (byteToLine data i)) i) = 0 /\
  (i < len data -> i < lineToByte data (byteToLine data i + 1)) /\
  (i = 0 \/ index data (i - 1) = Some nl ->
     lineToByte data (byteToLine data i) = i).
Proof.
  intros Hi.
  pose proof (byteToLine_eq data i ltac:(lia)) as HL.
  pose proof (count_before_total data i) as Htot.
  pose proof (count_nl_nonneg (firstn (Z.to_nat i) data)) as Hnn.
  pose proof (lineToByte_in_buffer data (byteToLine data i)) as Hr.
  pose proof (lineToByte_count_before data (byteToLine data i)
                ltac:(unfold lineCount; lia)) as Hcnt.
  assert (Hle : lineToByte data (byteToLine data i) <= i).
  { destruct (Z_le_dec (lineToByte data (byteToLine data i)) i) as [H|H]; [exact H|].
    destruct (lineToByte_cases data (byteToLine data i))
      as [[_ H0]|[(_ & _ & Hx & _)|[Hout _]]]; [lia| |unfold lineCount in Hout; lia].
    pose proof (count_before_lt data i (lineToByte data (byteToLine data i))
                  ltac:(lia) Hx); lia. }
  split; [exact Hle|]; split.
  { pose proof (count_before_slice data _ i (conj (proj1 Hr) Hle)); lia. }
  split.
  - intros Hlt.
    pose proof (lineToByte_in_buffer data (byteToLine data i + 1)) as Hr'.
    destruct (Z_le_dec (byteToLine data i + 1) (lineCount data)) as [Hin|Hout].
    + pose proof (lineToByte_count_before data (byteToLine data i + 1)
                    ltac:(lia)) as Hcnt'.
      destruct (Z_lt_dec i (lineToByte data (byteToLine data i + 1))); [assumption|].
      pose proof (count_before_le data (lineToByte data (byteToLine data i + 1)) i
                    ltac:(lia)); lia.
    + destruct (lineToByte_cases data (byteToLine data i + 1))
        as [[H1 _]|[(H1 & _)|[_ ->]]]; [lia|lia|exact Hlt].
  - intros Hstart; rewrite HL.
    rewrite Z.add_comm; apply lineToByte_unique; assumption.
Qed.

Lemma lineToByte_byteToLine_witness :
  0 <= 3 <= len two_lines /\
  lineToByte two_lines (byteToLine two_lines 3) <= 3 /\
  count_nl (slice two_lines (lineToByte two_lines (byteToLine two_lines 3)) 3) = 0 /\
  (3 < len two_lines -> 3 < lineToByte two_lines (byteToLine two_lines 3 + 1)) /\
  (3 = 0 \/ index two_lines (3 - 1) = Some nl ->
     lineToByte two_lines (byteToLine two_lines 3) = 3).
Proof.
  assert (Hr : 0 <= 3 <= len two_lines) by (unfold len; cbn; lia).
  split; [exact Hr|]; apply (lineToByte_byteToLine two_lines 3 Hr).
Defined.

(** ** Line addresses *)

Lemma count_before_skip (data : list byte) (h k : Z) :
  0 <= h -> 0 <= k ->
  count_nl (firstn (Z.to_nat (h + k)) data) =
  count_nl (firstn (Z.to_nat h) data) +
  count_nl (firstn (Z.to_nat k) (skipn (Z.to_nat h) data)).
Proof.
  intros Hh Hk; rewrite (count_before_slice data h (h + k)) by lia.
  rewrite slice_from; reflexivity.
Qed.

Lemma count_after (data : list byte) (h : Z) :
  count_nl (skipn (Z.to_nat h) data) =
  count_nl data - count_nl (firstn (Z.to_nat h) data).
Proof.
  rewrite <- (firstn_skipn (Z.to_nat h) data) at 2; rewrite count_nl_app; lia.
Qed.

(** A forward line step from a line start, by line numbers: from the start
    of line [L] a step of [n] lines selects line [L + n - 1]. *)
Lemma addrNumber_forward_aligned (data : list byte) (h n : Z) :
  0 <= h <= len data -> h = 0 \/ index data (h - 1) = Some nl -> 1 <= n ->
  addrNumber_forward data h n false =
  if byteToLine data h + n - 1 <=? count_nl data
  then Ok (lineToByte data (byteToLine data h + n - 1),
           lineToByte data (byteToLine data h + n))
  else Err AddressOutOfRange.
Proof.
  intros Hh Hstart Hn; unfold addrNumber_forward.
  destruct (forward_snap data h Hh) as (h' & Hs & Hr & _ & Hmin).
  assert (h' = h) as ->.
  { destruct (Z.eq_dec h' h) as [He|Hne]; [exact He|exfalso].
    apply (Hmin h); [lia|unfold line_boundary; tauto]. }
  rewrite Hs; cbn [bind]; destruct (Z.eqb_spec n 0); [lia|].
  destruct (split_at data h Hh) as [Hd Hl].
  pose proof (len_skipn data h Hh) as Hlen.
  pose proof (count_after data h) as Hafter.
  pose proof (lineToByte_unique data h Hh Hstart) as Hu.
  rewrite byteToLine_eq by lia.
  set (c := count_nl (firstn (Z.to_nat h) data)) in *.
  destruct (Z.leb_spec (1 + c + n - 1) (count_nl data)) as [Hin|Hout].
  - destruct (lines_forward_found (skipn (Z.to_nat h) data)
                (firstn (Z.to_nat h) data) (loop_fuel data) h n)
      as (k & k' & Hk & Hkr & Hkx & Hkc & Hlo); [apply loop_fuel_enough|lia|].
    rewrite <- Hd, Hl in Hk; rewrite Hk.
    rewrite index_skipn in Hkx by lia.
    assert (Hhi : lineToByte data (1 + c + n) = h + k).
    { pose proof (lineToByte_unique data (h + k) ltac:(lia)) as Hu'.
      rewrite count_before_skip, Hkc in Hu' by lia; fold c in Hu'.
      replace (1 + c + n) with (c + n + 1) by lia; apply Hu'.
      right; replace (h + k - 1) with (h + (k - 1)) by lia; exact Hkx. }
    rewrite Hhi; destruct (Z.eqb_spec n 1) as [-> | Hn1].
    + replace (1 + c + 1 - 1) with (c + 1) by lia; rewrite Hu; reflexivity.
    + destruct Hlo as (Hk' & Hkx' & Hkc'); [lia|].
      rewrite index_skipn in Hkx' by lia.
      pose proof (lineToByte_unique data (h + k') ltac:(lia)) as Hu'.
      rewrite count_before_skip, Hkc' in Hu' by lia; fold c in Hu'.
      replace (1 + c + n - 1) with (c + (n - 1) + 1) by lia; rewrite Hu'; [reflexivity|].
      right; replace (h + k' - 1) with (h + (k' - 1)) by lia; exact Hkx'.
  - pose proof (lines_forward_exhausted (skipn (Z.to_nat h) data)
                  (firstn (Z.to_nat h) data) (loop_fuel data) h n
                  (loop_fuel_enough data h) Hn ltac:(lia)) as He.
    rewrite <- Hd, Hl in He; exact He.
Qed.

(** An address that is a line number [n]: line 0 is the empty range at the
    start of the buffer, a line of the buffer is the range from its first
    byte to the first byte of the next line, and a number past the last
    newline-terminated line is out of range.  The same holds for a step of
    [n] lines from the start of a line [L], which selects line
    [L + n - 1]. *)
Theorem addrNumber_line_number (data : list byte) (lo hi n : Z) :
  0 <= n ->
  addrNumber data lo hi dir0 n false =
    (if n =? 0 then Ok (0, 0)
     else if n <=? count_nl data
          then Ok (lineToByte data n, lineToByte data (n + 1))
          else Err AddressOutOfRange) /\
  (0 <= hi <= len data -> hi = 0 \/ index data (hi - 1) = Some nl -> 1 <= n ->
   addrNumber data lo hi dirPlus n false =
     if byteToLine data hi + n - 1 <=? count_nl data
     then Ok (lineToByte data (byteToLine data hi + n - 1),
              lineToByte data (byteToLine data hi + n))
     else Err AddressOutOfRange).
Proof.
  intros Hn; split.
  - change (addrNumber data lo hi dir0 n false)
      with (addrNumber_forward data 0 n false).
    destruct (Z.eqb_spec n 0) as [-> | Hn0]; [reflexivity|].
    rewrite addrNumber_forward_aligned;
      [|pose proof (len_nonneg data); lia|left; reflexivity|lia].
    change (byteToLine data 0) with (byteToLine_range data 0 0 1).
    replace (byteToLine_range data 0 0 1) with 1
      by (destruct data; cbn [byteToLine_range Z.eqb]; reflexivity).
    replace (1 + n - 1) with n by lia; replace (1 + n) with (n + 1) by lia.
    reflexivity.
  - intros Hhi Hstart Hn1.
    change (addrNumber data lo hi dirPlus n false)
      with (addrNumber_forward data hi n false).
    apply addrNumber_forward_aligned; assumption.
Qed.

Lemma addrNumber_line_number_witness :
  0 <= 2 /\
  addrNumber three_lines 0 0 dir0 2 false =
    (if 2 =? 0 then Ok (0, 0)
     else if 2 <=? count_nl three_lines
          then Ok (lineToByte three_lines 2, lineToByte three_lines (2 + 1))
          else Err AddressOutOfRange).
Proof.
  split; [lia|].
  apply (proj1 (addrNumber_line_number three_lines 0 0 2 ltac:(lia))).
Defined.

Lemma bind_ret_pair {A B : Type} (x : outcome (A * B)) :
  (r <- x ;; Ok (fst r, snd r)) = x.
Proof. destruct x as [[a b]| | |]; reflexivity. Qed.

(** The loop on an address that is one run of digits. *)
Lemma addrToByteRange_digits (E : RegexpEngine) (a : string) (start : Z)
  (data : list byte) :
  a <> EmptyString -> all_digits a = true ->
  addrToByteRange E a start data =
  (n <- Atoi a ;; addrNumber data start start dir0 n false).
Proof.
  intros Hne Hd; destruct a as [|c rest]; [congruence|clear Hne].
  cbn [all_digits string_forallb] in Hd; apply andb_true_iff in Hd as [Hc Hrest].
  destruct (is_digit_plain c Hc) as (H1 & H2 & H3 & H4 & H5).
  assert (Hnil : forall x : string, (x ++ "")%string = x).
  { induction x as [|d x IH]; cbn [String.append]; congruence. }
  pose proof (digits_end_run rest EmptyString 1 Hrest I) as Halone.
  pose proof (substring_prefix (String c rest) EmptyString) as Hsub.
  pose proof (string_drop_prefix (String c rest) EmptyString) as Hdrop.
  rewrite Hnil in Halone, Hsub, Hdrop.
  change (1 + String.length rest)%nat with (S (String.length rest)) in *.
  unfold addrToByteRange.
  cbn [String.append String.length addr_loop] in *.
  rewrite H1, H2, H3, H4, H5, Hc; cbn [orb].
  rewrite Halone, Hsub, Hdrop.
  apply bind_ext; intros n.
  rewrite <- (bind_ret_pair (addrNumber data start start dir0 n false)) at 2.
  apply bind_ext; intros r; apply addr_loop_done.
Qed.

(** Addresses made of line numbers: [n] selects line [n], [n,m] runs from
    the start of line [n] to the end of line [m], and [n,] to the end of the
    buffer. *)
Theorem line_number_addresses (E : RegexpEngine) (a b : string) (n m start : Z)
  (data : list byte) :
  a <> EmptyString -> all_digits a = true -> Atoi a = Ok n ->
  b <> EmptyString -> all_digits b = true -> Atoi b = Ok m ->
  1 <= n <= count_nl data -> 1 <= m <= count_nl data ->
  addrToByteRange E a start data =
    Ok (lineToByte data n, lineToByte data (n + 1)) /\
  addrToByteRange E (a ++ "," ++ b) start data =
    Ok (lineToByte data n, lineToByte data (m + 1)) /\
  addrToByteRange E (a ++ ",") start data =
    Ok (lineToByte data n, len data).
Proof.
  intros Ha Hda Hna Hb Hdb Hmb Hn Hm.
  assert (Hline : forall s x k, x <> EmptyString -> all_digits x = true ->
            Atoi x = Ok k -> 1 <= k <= count_nl data ->
            addrToByteRange E x s data =
            Ok (lineToByte data k, lineToByte data (k + 1))).
  { intros s x k Hx Hdx Hkx Hk.
    rewrite addrToByteRange_digits, Hkx by assumption; cbn [bind].
    change (addrNumber data s s dir0 k false)
      with (addrNumber_forward data 0 k false).
    rewrite addrNumber_forward_aligned;
      [|pose proof (len_nonneg data); lia|left; reflexivity|lia].
    replace (byteToLine data 0) with 1
      by (unfold byteToLine; destruct data; cbn [byteToLine_range Z.eqb]; reflexivity).
    replace (1 + k - 1) with k by lia; replace (1 + k) with (k + 1) by lia.
    destruct (Z.leb_spec k (count_nl data)); [reflexivity|lia]. }
  split; [apply Hline; assumption|]; split.
  - rewrite comma_after_line_number, (Hline start a n) by assumption.
    cbn [bind fst snd]; destruct b as [|c b]; [congruence|].
    rewrite (Hline _ (String c b) m) by assumption; reflexivity.
  - rewrite (comma_after_line_number E a EmptyString), (Hline start a n)
      by assumption; reflexivity.
Qed.

Lemma line_number_addresses_witness :
  addrToByteRange LiteralEngine "1" 0 three_lines =
    Ok (lineToByte three_lines 1, lineToByte three_lines (1 + 1)) /\
  addrToByteRange LiteralEngine ("1" ++ "," ++ "2") 0 three_lines =
    Ok (lineToByte three_lines 1, lineToByte three_lines (2 + 1)) /\
  addrToByteRange LiteralEngine ("1" ++ ",") 0 three_lines =
    Ok (lineToByte three_lines 1, len three_lines).
Proof.
  apply (line_number_addresses LiteralEngine "1" "2" 1 2 0 three_lines);
    try reflexivity; try discriminate; vm_compute; split; discriminate.
Defined.

(** ** Backward line steps *)

Lemma byteToLine_step (data : list byte) (k : Z) (c : byte) :
  index data (k - 1) = Some c ->
  byteToLine data k = byteToLine data (k - 1) + (if is_nl c then 1 else 0).
Proof.
  intros Hx; pose proof (index_Some_range _ _ _ Hx) as Hr.
  rewrite !byteToLine_eq by lia.
  pose proof (count_before_step data (k - 1) c Hx) as Hs.
  replace (k - 1 + 1) with k in Hs by lia; lia.
Qed.

Lemma lineToByte_line_start (data : list byte) (k : Z) :
  0 <= k <= len data -> k = 0 \/ index data (k - 1) = Some nl ->
  lineToByte data (byteToLine data k) = k.
Proof.
  intros Hk Hs; rewrite byteToLine_eq, Z.add_comm by lia.
  apply lineToByte_unique; assumption.
Qed.

(** The loop that backs up to the start of the line stops at the start of
    the line [lo] lies in. *)
Lemma line_start_spec (data : list byte) :
  forall fuel lo, 0 <= lo <= len data -> lo <= Z.of_nat fuel ->
  line_start fuel data lo = Ok (lineToByte data (byteToLine data lo)).
Proof.
  induction fuel as [|fuel IH]; intros lo Hlo Hfuel; cbn [line_start];
    (destruct (Z.ltb_spec 0 lo) as [Hpos|Hzero];
     [|assert (lo = 0) by lia; subst lo;
       rewrite lineToByte_line_start by (auto; lia); reflexivity]);
    (destruct (index_in_range data (lo - 1)) as [c Hc]; [lia|]); rewrite Hc;
    pose proof (byteToLine_step data lo c Hc) as Hstep;
    (destruct (is_nl c) eqn:Hnl;
     [apply is_nl_spec in Hnl; subst c;
      rewrite lineToByte_line_start by (auto; lia); reflexivity|]);
    [lia|].
  rewrite IH by lia; rewrite Hstep, Z.add_0_r; reflexivity.
Qed.

(** The backward line loop, by line numbers: from an offset in line [L]
    the [n]-th line start met going down is the start of line
    [L + 1 - n]. *)
Lemma lines_backward_spec (data : list byte) :
  forall fuel lo hi n,
  0 <= lo <= len data -> lo + 1 <= Z.of_nat fuel -> 1 <= n ->
  lines_backward fuel data lo hi n =
  if n <=? byteToLine data lo
  then Ok (lineToByte data (byteToLine data lo + 1 - n),
           if n =? 1 then hi else lineToByte data (byteToLine data lo + 2 - n))
  else Err AddressOutOfRange.
Proof.
  assert (Hout : forall fuel hi n, lines_backward fuel data (-1) hi n
                                   = Err AddressOutOfRange).
  { intros [|fuel] hi n; reflexivity. }
  assert (Hline0 : byteToLine data 0 = 1).
  { unfold byteToLine; destruct data; cbn [byteToLine_range Z.eqb]; reflexivity. }
  induction fuel as [|fuel IH]; intros lo hi n Hlo Hfuel Hn; [lia|].
  cbn [lines_backward]; destruct (Z.leb_spec 0 lo); [|lia].
  destruct (Z.ltb_spec 0 lo) as [Hpos|Hzero].
  - destruct (index_in_range data (lo - 1)) as [c Hc]; [lia|]; rewrite Hc.
    pose proof (byteToLine_step data lo c Hc) as Hstep.
    pose proof (proj1 (proj2 (proj2 (byteToLine_count_bounds data (lo - 1))))) as Hb.
    cbn [bind]; destruct (is_nl c) eqn:Hnl; cbn [negb].
    + apply is_nl_spec in Hnl; subst c; cbn [is_nl nl] in Hstep.
      pose proof (lineToByte_line_start data lo ltac:(lia) ltac:(auto)) as Hs.
      destruct (Z.eqb_spec (n - 1) 1) as [H2|H2].
      * rewrite IH, H2 by lia; cbn [Z.eqb].
        destruct (Z.eqb_spec n 1); [lia|].
        replace (byteToLine data lo + 2 - n) with (byteToLine data lo) by lia.
        replace (byteToLine data lo + 1 - n) with (byteToLine data (lo - 1) + 1 - 1)
          by lia.
        rewrite Hs.
        destruct (Z.leb_spec 1 (byteToLine data (lo - 1))),
          (Z.leb_spec n (byteToLine data lo)); try lia; reflexivity.
      * destruct (Z.eqb_spec (n - 1) 0) as [H1|H1].
        -- destruct (Z.eqb_spec n 1); [|lia].
           destruct (Z.leb_spec n (byteToLine data lo)); [|lia].
           replace (byteToLine data lo + 1 - n) with (byteToLine data lo) by lia.
           rewrite Hs; reflexivity.
        -- rewrite IH by lia.
           destruct (Z.eqb_spec (n - 1) 1); [lia|].
           destruct (Z.eqb_spec n 1); [lia|].
           replace (byteToLine data (lo - 1) + 1 - (n - 1))
             with (byteToLine data lo + 1 - n) by lia.
           replace (byteToLine data (lo - 1) + 2 - (n - 1))
             with (byteToLine data lo + 2 - n) by lia.
           destruct (Z.leb_spec (n - 1) (byteToLine data (lo - 1))),
             (Z.leb_spec n (byteToLine data lo)); try lia; reflexivity.
    + rewrite IH by lia; rewrite Hstep, Z.add_0_r; reflexivity.
  - assert (lo = 0) by lia; subst lo; cbn [bind negb Z.sub Z.opp Z.add].
    rewrite Hline0.
    destruct (Z.eqb_spec (n - 1) 1) as [H2|H2].
    + rewrite Hout; destruct (Z.leb_spec n 1); [lia|reflexivity].
    + destruct (Z.eqb_spec (n - 1) 0) as [H1|H1].
      * assert (n = 1) by lia; subst n; reflexivity.
      * rewrite Hout; destruct (Z.leb_spec n 1); [lia|reflexivity].
Qed.

(** A backward line step, by line numbers.  From an offset in line [L]:
    a count of 0 or of 1 gives the empty range at the start of line [L], a
    count [n >= 2] selects line [L + 1 - n], and a count above [L] is out
    of range. *)
Theorem addrNumber_backward_lines (data : list byte) (lo hi n : Z) :
  0 <= lo <= len data -> 0 <= n ->
  addrNumber data lo hi dirMinus n false =
  if n =? 0
  then Ok (lineToByte data (byteToLine data lo),
           lineToByte data (byteToLine data lo))
  else if n <=? byteToLine data lo
  then Ok (lineToByte data (byteToLine data lo + 1 - n),
           if n =? 1 then lineToByte data (byteToLine data lo)
           else lineToByte data (byteToLine data lo + 2 - n))
  else Err AddressOutOfRange.
Proof.
  intros Hlo Hn.
  change (addrNumber data lo hi dirMinus n false)
    with (addrNumber_backward data lo n false).
  unfold addrNumber_backward.
  rewrite line_start_spec by (rewrite ?loop_fuel_val; lia); cbn [bind].
  destruct (Z.eqb_spec n 0) as [Hn0|Hn0]; [reflexivity|].
  pose proof (lineToByte_in_buffer data (byteToLine data lo)) as Hr.
  pose proof (byteToLine_count_bounds data lo) as (_ & _ & Hb1 & Hb2).
  rewrite lines_backward_spec by (rewrite ?loop_fuel_val; lia).
  rewrite (byteToLine_eq data (lineToByte data (byteToLine data lo))) by lia.
  rewrite lineToByte_count_before by lia.
  replace (1 + (byteToLine data lo - 1)) with (byteToLine data lo) by lia.
  reflexivity.
Qed.

Lemma addrNumber_backward_lines_witness :
  0 <= 7 <= len three_lines /\ 0 <= 2 /\
  addrNumber three_lines 7 9 dirMinus 2 false =
  (if 2 =? 0
   then Ok (lineToByte three_lines (byteToLine three_lines 7),
            lineToByte three_lines (byteToLine three_lines 7))
   else if 2 <=? byteToLine three_lines 7
   then Ok (lineToByte three_lines (byteToLine three_lines 7 + 1 - 2),
            if 2 =? 1 then lineToByte three_lines (byteToLine three_lines 7)
            else lineToByte three_lines (byteToLine three_lines 7 + 2 - 2))
   else Err AddressOutOfRange).
Proof.
  assert (Hr : 0 <= 7 <= len three_lines) by (unfold len; cbn; lia).
  split; [exact Hr|]; split; [lia|].
  apply (addrNumber_backward_lines three_lines 7 9 2 Hr); lia.
Defined.

(** ** Pattern addresses *)

Lemma regexp_end_plain (p tail : string) (i : nat) :
  plain_pattern p = true ->
  regexp_end (p ++ String "/" tail) i =
    ((i + String.length p)%nat, S (i + String.length p)) /\
  regexp_end p i = ((i + String.length p)%nat, O).
Proof.
  revert i; induction p as [|c p IH]; intros i Hp;
    cbn [String.append regexp_end String.length].
  - rewrite Nat.add_0_r; split; reflexivity.
  - cbn [plain_pattern string_forallb] in Hp.
    apply andb_true_iff in Hp as [Hc Hp].
    apply andb_true_iff in Hc as [Hc1 Hc2].
    apply negb_true_iff in Hc1, Hc2; rewrite Hc1, Hc2.
    destruct (IH (S i) Hp) as [-> ->].
    replace (S i + String.length p)%nat with (i + S (String.length p))%nat by lia.
    split; reflexivity.
Qed.

Lemma string_drop_app (a tail : string) (k : nat) :
  string_drop (String.length a + k) (a ++ tail) = string_drop k tail.
Proof. induction a as [|c a IH]; [reflexivity|exact IH]. Qed.

(** One iteration of the loop on a delimited plain pattern: the pattern is
    searched for and the loop goes on behind the closing delimiter. *)
Lemma addr_loop_pattern (E : RegexpEngine) (fuel : nat) (data : list byte)
  (p tail : string) (lo hi : Z) (dir prevc : ascii) (charOffset : bool) :
  plain_pattern p = true ->
  addr_loop E (S fuel) data (String "/" (p ++ String "/" tail)) lo hi dir prevc
    charOffset =
  (r <- addrRegexp E data lo hi dir p ;;
   addr_loop E fuel data tail (fst r) (snd r) dir "/" charOffset).
Proof.
  intros Hp; cbn [addr_loop].
  change (("/" =? ",")%char) with false; change (("/" =? "+")%char) with false.
  change (("/" =? "-")%char) with false; change (("/" =? "$")%char) with false.
  change (("/" =? "#")%char) with false; change (is_digit "/") with false.
  change (("/" =? "/")%char) with true; cbn [orb].
  destruct (regexp_end_plain p tail 1 Hp) as [-> _]; cbn [fst snd Nat.eqb].
  cbn [String.length]; rewrite string_length_append; cbn [String.length].
  destruct (Nat.ltb_spec (S (String.length p + S (String.length tail)))
              (1 + String.length p)); [lia|].
  replace (1 + String.length p - 1)%nat with (String.length p) by lia.
  assert (Hsub : substring 1 (String.length p) (String "/" (p ++ String "/" tail))
                 = p) by (apply (substring_prefix p (String "/" tail))).
  assert (Hdrop : string_drop (S (1 + String.length p))
                    (String "/" (p ++ String "/" tail)) = tail).
  { change (string_drop (1 + String.length p) (p ++ String "/" tail) = tail).
    rewrite Nat.add_comm, string_drop_app; reflexivity. }
  rewrite Hsub, Hdrop; reflexivity.
Qed.

(** The address [/p/] is the forward search for [p] from the initial
    position, with or without the closing delimiter; [/p/,/q/] runs from
    the start of the match of [p] to the end of the match of [q] found from
    its end on. *)
Theorem pattern_addresses (E : RegexpEngine) (p q : string) (start : Z)
  (data : list byte) :
  plain_pattern p = true -> plain_pattern q = true ->
  addrToByteRange E ("/" ++ p ++ "/") start data =
    addrRegexp E data start start dir0 p /\
  addrToByteRange E ("/" ++ p) start data =
    addrRegexp E data start start dir0 p /\
  addrToByteRange E ("/" ++ p ++ "/,/" ++ q ++ "/") start data =
    (r <- addrRegexp E data start start dir0 p ;;
     r' <- addrRegexp E data (snd r) (snd r) dir0 q ;;
     Ok (fst r, snd r')).
Proof.
  intros Hp Hq.
  assert (Hone : forall x s, plain_pattern x = true ->
            addrToByteRange E ("/" ++ x ++ "/") s data =
            addrRegexp E data s s dir0 x).
  { intros x s Hx; unfold addrToByteRange.
    cbn [String.append String.length].
    rewrite addr_loop_pattern by exact Hx.
    rewrite <- (bind_ret_pair (addrRegexp E data s s dir0 x)) at 2.
    apply bind_ext; intros r; apply addr_loop_done. }
  split; [apply Hone; exact Hp|]; split.
  - unfold addrToByteRange; cbn [String.append String.length addr_loop].
    change (("/" =? ",")%char) with false; change (("/" =? "+")%char) with false.
    change (("/" =? "-")%char) with false; change (("/" =? "$")%char) with false.
    change (("/" =? "#")%char) with false; change (is_digit "/") with false.
    change (("/" =? "/")%char) with true; cbn [orb].
    destruct (regexp_end_plain p EmptyString 1 Hp) as [_ ->]; cbn [fst snd Nat.eqb].
    destruct (Nat.ltb_spec (S (String.length p)) (1 + String.length p)); [lia|].
    replace (1 + String.length p - 1)%nat with (String.length p) by lia.
    assert (Hnil : forall x : string, (x ++ "")%string = x).
    { induction x as [|d x IH]; cbn [String.append]; congruence. }
    assert (Hsub : substring 1 (String.length p) (String "/" p) = p).
    { pose proof (substring_prefix p EmptyString) as H'; rewrite Hnil in H'.
      exact H'. }
    assert (Hdrop : string_drop (1 + String.length p) (String "/" p) = EmptyString).
    { pose proof (string_drop_prefix p EmptyString) as H'; rewrite Hnil in H'.
      exact H'. }
    rewrite Hsub, Hdrop.
    rewrite <- (bind_ret_pair (addrRegexp E data start start dir0 p)) at 2.
    apply bind_ext; intros r; apply addr_loop_done.
  - unfold addrToByteRange at 1.
    cbn [String.append String.length].
    rewrite addr_loop_pattern by exact Hp.
    apply bind_ext; intros r.
    rewrite string_length_append; cbn [String.length].
    replace (String.length p + S (S (S (String.length (q ++ "/")))))%nat
      with (S (String.length p + S (S (String.length (q ++ "/"))))) by lia.
    rewrite addr_loop_comma by (cbn [String.length]; lia).
    pose proof (Hone q (snd r) Hq) as Hq'; cbn [String.append] in Hq'.
    rewrite Hq'; reflexivity.
Qed.

Lemma pattern_addresses_witness :
  addrToByteRange LiteralEngine ("/" ++ "line2" ++ "/") 0 three_lines =
    addrRegexp LiteralEngine three_lines 0 0 dir0 "line2" /\
  addrToByteRange LiteralEngine ("/" ++ "line2") 0 three_lines =
    addrRegexp LiteralEngine three_lines 0 0 dir0 "line2" /\
  addrToByteRange LiteralEngine ("/" ++ "line2" ++ "/,/" ++ "e3" ++ "/") 0
    three_lines =
    (r <- addrRegexp LiteralEngine three_lines 0 0 dir0 "line2" ;;
     r' <- addrRegexp LiteralEngine three_lines (snd r) (snd r) dir0 "e3" ;;
     Ok (fst r, snd r')).
Proof.
  apply (pattern_addresses LiteralEngine "line2" "e3" 0 three_lines); reflexivity.
Defined.

(** ** The lines of a step *)

Lemma byteToLine_lineToByte_id (data : list byte) (L : Z) :
  1 <= L <= lineCount data -> byteToLine data (lineToByte data L) = L.
Proof.
  intros HL; pose proof (lineToByte_in_buffer data L).
  rewrite byteToLine_eq, lineToByte_count_before by lia; lia.
Qed.

Lemma byteToLine_nil (i : Z) : byteToLine [] i = 1.
Proof. reflexivity. Qed.

Lemma lineToByte_nil (n : Z) : lineToByte [] n = 0.
Proof. unfold lineToByte; destruct (n <=? 1); reflexivity. Qed.

(** The byte before the start of the next line belongs to the line. *)
Lemma byteToLine_before_next (data : list byte) (j : Z) :
  0 <= j < len data ->
  j < lineToByte data (byteToLine data j + 1) /\
  byteToLine data (lineToByte data (byteToLine data j + 1) - 1) = byteToLine data j.
Proof.
  intros Hj.
  pose proof (byteToLine_count_bounds data j) as (_ & _ & Hb1 & Hb2).
  pose proof (byteToLine_eq data j ltac:(lia)) as HK.
  pose proof (count_before_total data j) as Htot.
  set (K := byteToLine data j) in *.
  destruct (lineToByte_cases data (K + 1))
    as [[H1 _]|[(Hin & Hr & Hx & Hk)|[Hout He]]]; [lia| |].
  - assert (Hlt : j < lineToByte data (K + 1)).
    { destruct (Z_lt_dec j (lineToByte data (K + 1))); [assumption|].
      pose proof (count_before_le data (lineToByte data (K + 1)) j ltac:(lia)); lia. }
    split; [exact Hlt|].
    pose proof (byteToLine_step data _ nl Hx) as Hs; cbn [is_nl nl] in Hs.
    rewrite (byteToLine_eq data (lineToByte data (K + 1))) in Hs by lia.
    lia.
  - rewrite He; split; [lia|].
    pose proof (byteToLine_count_bounds data (len data - 1)) as (_ & _ & _ & Hup).
    rewrite (byteToLine_eq data (len data - 1)) in * by lia.
    pose proof (count_before_le data j (len data - 1) ltac:(lia)); lia.
Qed.

(** The loop that grows [hi] stops at the end of the line the byte before
    [hi] lies in. *)
Lemma line_end_spec (data : list byte) :
  forall fuel hi, 0 <= hi <= len data -> len data - hi <= Z.of_nat fuel ->
  line_end fuel data hi =
  Ok (lineToByte data (byteToLine data (Z.max 0 (hi - 1)) + 1)).
Proof.
  assert (Hend : 0 < len data ->
            lineToByte data (byteToLine data (len data - 1) + 1) = len data).
  { intros Hpos.
    destruct (index_in_range data (len data - 1)) as [c Hc]; [lia|].
    pose proof (byteToLine_step data (len data) c Hc) as Hs.
    destruct (is_nl c) eqn:Hnl.
    - apply is_nl_spec in Hnl; subst c; rewrite <- Hs.
      apply lineToByte_line_start; [lia|auto].
    - pose proof (byteToLine_count_bounds data (len data)) as (_ & Hb & _).
      rewrite Hb in Hs by lia.
      destruct (lineToByte_cases data (byteToLine data (len data - 1) + 1))
        as [[H1 _]|[(H1 & _)|[_ He]]]; [| |exact He].
      + pose proof (byteToLine_count_bounds data (len data - 1)); lia.
      + lia. }
  induction fuel as [|fuel IH]; intros hi Hhi Hfuel; cbn [line_end];
    destruct (Z.ltb_spec hi (len data)) as [Hlt|Hge]; try lia.
  - (* fuel 0: hi = len *)
    assert (hi = len data) by lia; subst hi.
    destruct (Z.eq_dec (len data) 0) as [H0|H0].
    + destruct data; [rewrite lineToByte_nil; reflexivity|rewrite len_cons in H0].
      pose proof (len_nonneg data); lia.
    + rewrite Z.max_r by lia; rewrite Hend by lia; reflexivity.
  - destruct (Z.eqb_spec hi 0) as [-> | Hne]; cbn [bind].
    + rewrite IH by lia; reflexivity.
    + destruct (index_in_range data (hi - 1)) as [c Hc]; [lia|]; rewrite Hc.
      pose proof (byteToLine_step data hi c Hc) as Hs.
      cbn [bind]; rewrite Z.max_r by lia.
      destruct (is_nl c) eqn:Hnl.
      * apply is_nl_spec in Hnl; subst c; rewrite <- Hs.
        rewrite lineToByte_line_start by (auto; lia); reflexivity.
      * rewrite IH by lia.
        replace (hi + 1 - 1) with hi by lia; rewrite Z.max_r by lia.
        rewrite Hs, Z.add_0_r; reflexivity.
  - assert (hi = len data) by lia; subst hi.
    destruct (Z.eq_dec (len data) 0) as [H0|H0].
    + destruct data; [rewrite lineToByte_nil; reflexivity|rewrite len_cons in H0].
      pose proof (len_nonneg data); lia.
    + rewrite Z.max_r by lia; rewrite Hend by lia; reflexivity.
Qed.

(** Growing a range of the buffer to whole lines: [lo] goes back to the
    start of its line and [hi] on to the end of the line of the byte before
    it; both stay in the buffer, nothing is lost, and a range that is grown
    already is left as it is. *)
Theorem snippet_expansion (data : list byte) (lo hi : Z) :
  0 <= lo <= len data -> 0 <= hi <= len data ->
  exists lo' hi',
    line_start (loop_fuel data) data lo = Ok lo' /\
    line_end (loop_fuel data) data hi = Ok hi' /\
    lo' = lineToByte data (byteToLine data lo) /\
    hi' = lineToByte data (byteToLine data (Z.max 0 (hi - 1)) + 1) /\
    0 <= lo' <= lo /\ hi <= hi' <= len data /\
    (lo' = 0 \/ index data (lo' - 1) = Some nl) /\
    (hi' = len data \/ index data (hi' - 1) = Some nl) /\
    line_start (loop_fuel data) data lo' = Ok lo' /\
    line_end (loop_fuel data) data hi' = Ok hi'.
Proof.
  intros Hlo Hhi; pose proof (loop_fuel_val data) as Hf.
  exists (lineToByte data (byteToLine data lo)),
         (lineToByte data (byteToLine data (Z.max 0 (hi - 1)) + 1)).
  pose proof (lineToByte_in_buffer data (byteToLine data lo)) as Hr1.
  pose proof (lineToByte_in_buffer data
                (byteToLine data (Z.max 0 (hi - 1)) + 1)) as Hr2.
  pose proof (byteToLine_count_bounds data lo) as (_ & _ & Hb1 & Hb2).
  pose proof (byteToLine_count_bounds data (Z.max 0 (hi - 1))) as (_ & _ & Hb3 & Hb4).
  assert (Hle : lineToByte data (byteToLine data lo) <= lo).
  { destruct (Z_le_dec (lineToByte data (byteToLine data lo)) lo) as [H|H]; [exact H|].
    destruct (lineToByte_cases data (byteToLine data lo))
      as [[_ H0]|[(_ & _ & Hx & _)|[Hout _]]]; [lia| |lia].
    pose proof (count_before_lt data lo (lineToByte data (byteToLine data lo))
                  ltac:(lia) Hx).
    rewrite byteToLine_eq in * by lia.
    rewrite lineToByte_count_before in * by (unfold lineCount in *; lia); lia. }
  assert (Hge : hi <= lineToByte data (byteToLine data (Z.max 0 (hi - 1)) + 1)).
  { destruct (Z.eq_dec (len data) 0) as [H0|H0]; [lia|].
    destruct (Z.eq_dec hi 0) as [-> | Hne]; [lia|].
    rewrite Z.max_r in * by lia.
    pose proof (byteToLine_before_next data (hi - 1) ltac:(lia)); lia. }
  split; [apply line_start_spec; lia|].
  split; [apply line_end_spec; lia|].
  split; [reflexivity|]; split; [reflexivity|].
  split; [lia|]; split; [lia|].
  split.
  { destruct (lineToByte_cases data (byteToLine data lo))
      as [[_ H0]|[(_ & _ & Hx & _)|[Hout _]]]; [auto|auto|lia]. }
  split.
  { destruct (lineToByte_cases data (byteToLine data (Z.max 0 (hi - 1)) + 1))
      as [[H1 _]|[(_ & _ & Hx & _)|[_ He]]]; [lia|auto|auto]. }
  split.
  - rewrite line_start_spec by lia.
    rewrite byteToLine_lineToByte_id by lia; reflexivity.
  - rewrite line_end_spec by lia.
    destruct (Z.eq_dec (len data) 0) as [H0|H0].
    + destruct data; [rewrite !lineToByte_nil; reflexivity|rewrite len_cons in H0].
      pose proof (len_nonneg data); lia.
    + assert (Hj : 0 <= Z.max 0 (hi - 1) < len data) by lia.
      pose proof (byteToLine_before_next data _ Hj) as [Hlt Heq].
      rewrite (Z.max_r 0 (lineToByte data _ - 1)) by lia.
      rewrite Heq; reflexivity.
Qed.

Lemma snippet_expansion_witness :
  0 <= 8 <= len three_lines /\ 0 <= 9 <= len three_lines /\
  exists lo' hi',
    line_start (loop_fuel three_lines) three_lines 8 = Ok lo' /\
    line_end (loop_fuel three_lines) three_lines 9 = Ok hi' /\
    lo' = lineToByte three_lines (byteToLine three_lines 8) /\
    hi' = lineToByte three_lines (byteToLine three_lines (Z.max 0 (9 - 1)) + 1) /\
    0 <= lo' <= 8 /\ 9 <= hi' <= len three_lines /\
    (lo' = 0 \/ index three_lines (lo' - 1) = Some nl) /\
    (hi' = len three_lines \/ index three_lines (hi' - 1) = Some nl) /\
    line_start (loop_fuel three_lines) three_lines lo' = Ok lo' /\
    line_end (loop_fuel three_lines) three_lines hi' = Ok hi'.
Proof.
  assert (H8 : 0 <= 8 <= len three_lines) by (unfold len; cbn; lia).
  assert (H9 : 0 <= 9 <= len three_lines) by (unfold len; cbn; lia).
  split; [exact H8|]; split; [exact H9|].
  apply (snippet_expansion three_lines 8 9 H8 H9).
Defined.

Lemma step_lines_eq (E : RegexpEngine) (addr : string) (data : list byte)
  (lo hi : Z) :
  addrToByteRange E addr 0 data = Ok (lo, hi) ->
  0 <= lo <= len data /\ 0 <= hi <= len data /\
  step_lines E addr data =
    Ok (byteToLine data lo, byteToLine data (Z.max 0 (hi - 1))).
Proof.
  intros Hr; pose proof (loop_fuel_val data) as Hf.
  pose proof (len_nonneg data) as Hd.
  pose proof Hr as Hb; unfold addrToByteRange in Hb.
  apply addr_loop_bounds in Hb; [|lia|lia]; destruct Hb as (Hlo & Hhi & _).
  split; [exact Hlo|]; split; [exact Hhi|].
  unfold step_lines; rewrite Hr; cbn [bind fst snd].
  rewrite line_start_spec, line_end_spec by lia; cbn [bind].
  pose proof (byteToLine_count_bounds data lo) as (_ & _ & Hb1 & Hb2).
  rewrite byteToLine_lineToByte_id by lia.
  destruct (Z.eq_dec (len data) 0) as [H0|H0].
  - destruct data; [reflexivity|rewrite len_cons in H0].
    pose proof (len_nonneg data); lia.
  - assert (Hj : 0 <= Z.max 0 (hi - 1) < len data) by lia.
    pose proof (byteToLine_before_next data _ Hj) as [_ Heq].
    rewrite Heq; reflexivity.
Qed.

(** The line numbers of a step are those of the first and of the last byte
    of the resolved range: growing the range to whole lines does not
    change them.  They are lines of the buffer, and in order when the range
    is not empty.  An empty range just past a newline gives [Hi = Lo - 1],
    the byte before it being the end of the line before; any other empty
    range gives [Hi = Lo]. *)
Theorem step_lines_spec (E : RegexpEngine) (addr : string) (data : list byte)
  (lo hi : Z) :
  addrToByteRange E addr 0 data = Ok (lo, hi) ->
  step_lines E addr data =
    Ok (byteToLine data lo, byteToLine data (Z.max 0 (hi - 1))) /\
  1 <= byteToLine data lo <= lineCount data /\
  1 <= byteToLine data (Z.max 0 (hi - 1)) <= lineCount data /\
  (lo < hi -> byteToLine data lo <= byteToLine data (Z.max 0 (hi - 1))) /\
  (lo = hi -> index data (lo - 1) = Some nl ->
     byteToLine data (Z.max 0 (hi - 1)) = byteToLine data lo - 1) /\
  (lo = hi -> index data (lo - 1) <> Some nl ->
     byteToLine data (Z.max 0 (hi - 1)) = byteToLine data lo).
Proof.
  intros Hr; destruct (step_lines_eq E addr data lo hi Hr) as (Hlo & Hhi & Heq).
  split; [exact Heq|].
  pose proof (byteToLine_count_bounds data lo) as (_ & _ & Hb1 & Hb2).
  pose proof (byteToLine_count_bounds data (Z.max 0 (hi - 1))) as (_ & _ & Hb3 & Hb4).
  split; [lia|]; split; [lia|]; split; [|split].
  - intros Hlt; rewrite !byteToLine_eq by lia.
    pose proof (count_before_le data lo (Z.max 0 (hi - 1)) ltac:(lia)); lia.
  - intros <- Hc; pose proof (index_Some_range data _ _ Hc) as Hpos.
    rewrite Z.max_r by lia.
    rewrite (byteToLine_step data lo nl Hc); cbn [is_nl nl]; lia.
  - intros <- Hc; destruct (Z.ltb_spec 0 lo) as [Hpos|Hz].
    + rewrite Z.max_r by lia.
      destruct (index_in_range data (lo - 1) ltac:(lia)) as [c Hc'].
      rewrite (byteToLine_step data lo c Hc').
      destruct (is_nl c) eqn:Hnl; [|lia].
      apply is_nl_spec in Hnl; subst c; contradiction.
    + replace lo with 0 by lia; reflexivity.
Qed.

Lemma step_lines_spec_witness :
  addrToByteRange LiteralEngine "/e2/" 0 three_lines = Ok (9, 11) /\
  step_lines LiteralEngine "/e2/" three_lines =
    Ok (byteToLine three_lines 9, byteToLine three_lines (Z.max 0 (11 - 1))) /\
  1 <= byteToLine three_lines 9 <= lineCount three_lines /\
  1 <= byteToLine three_lines (Z.max 0 (11 - 1)) <= lineCount three_lines /\
  (9 < 11 -> byteToLine three_lines 9 <= byteToLine three_lines (Z.max 0 (11 - 1))) /\
  (9 = 11 -> index three_lines (9 - 1) = Some nl ->
     byteToLine three_lines (Z.max 0 (11 - 1)) = byteToLine three_lines 9 - 1) /\
  (9 = 11 -> index three_lines (9 - 1) <> Some nl ->
     byteToLine three_lines (Z.max 0 (11 - 1)) = byteToLine three_lines 9).
Proof.
  split; [reflexivity|].
  apply (step_lines_spec LiteralEngine "/e2/" three_lines 9 11); reflexivity.
Defined.

Lemma byteToLine_end_of_line (data : list byte) (m : Z) :
  1 <= m <= count_nl data ->
  0 < lineToByte data (m + 1) /\
  byteToLine data (lineToByte data (m + 1) - 1) = m.
Proof.
  intros Hm.
  destruct (lineToByte_cases data (m + 1))
    as [[H1 _]|[(_ & Hr & Hx & Hk)|[Hout _]]]; [lia| |unfold lineCount in Hout; lia].
  split; [lia|].
  pose proof (byteToLine_step data _ nl Hx) as Hs; cbn [is_nl nl] in Hs.
  rewrite (byteToLine_eq data (lineToByte data (m + 1))) in Hs by lia; lia.
Qed.

Lemma addrToByteRange_line (E : RegexpEngine) (data : list byte) (s : Z)
  (x : string) (k : Z) :
  x <> EmptyString -> all_digits x = true -> Atoi x = Ok k ->
  1 <= k <= count_nl data ->
  addrToByteRange E x s data = Ok (lineToByte data k, lineToByte data (k + 1)).
Proof.
  intros Hx Hdx Hkx Hk.
  rewrite addrToByteRange_digits, Hkx by assumption; cbn [bind].
  change (addrNumber data s s dir0 k false)
    with (addrNumber_forward data 0 k false).
  rewrite addrNumber_forward_aligned;
    [|pose proof (len_nonneg data); lia|left; reflexivity|lia].
  replace (byteToLine data 0) with 1
    by (unfold byteToLine; destruct data; cbn [byteToLine_range Z.eqb]; reflexivity).
  replace (1 + k - 1) with k by lia; replace (1 + k) with (k + 1) by lia.
  destruct (Z.leb_spec k (count_nl data)); [reflexivity|lia].
Qed.

Lemma addrToByteRange_line_pair (E : RegexpEngine) (data : list byte)
  (a b : string) (n m : Z) :
  a <> EmptyString -> all_digits a = true -> Atoi a = Ok n ->
  b <> EmptyString -> all_digits b = true -> Atoi b = Ok m ->
  1 <= n <= count_nl data -> 1 <= m <= count_nl data ->
  addrToByteRange E (a ++ "," ++ b) 0 data =
  Ok (lineToByte data n, lineToByte data (m + 1)).
Proof.
  intros Ha Hda Hna Hb Hdb Hmb Hn Hm.
  rewrite comma_after_line_number, (addrToByteRange_line E data 0 a n)
    by assumption.
  cbn [bind fst snd]; destruct b as [|c b]; [congruence|].
  rewrite (addrToByteRange_line E data _ (String c b) m) by assumption.
  reflexivity.
Qed.

(** The lines of a step whose range is made of whole lines. *)
Lemma step_lines_of_lines (E : RegexpEngine) (data : list byte)
  (addr : string) (k j : Z) :
  1 <= k <= count_nl data -> 1 <= j <= count_nl data ->
  addrToByteRange E addr 0 data =
    Ok (lineToByte data k, lineToByte data (j + 1)) ->
  step_lines E addr data = Ok (k, j).
Proof.
  intros Hk Hj Hr.
  destruct (step_lines_eq E addr data _ _ Hr) as (_ & _ & ->).
  destruct (byteToLine_end_of_line data j Hj) as [Hpos Hend].
  rewrite Z.max_r by lia.
  rewrite Hend, byteToLine_lineToByte_id by (unfold lineCount; lia).
  reflexivity.
Qed.

(** A step addressed by line numbers shows those lines: the address [n]
    gives [Lo = Hi = n] and the address [n,m] gives [Lo = n], [Hi = m]. *)
Theorem step_lines_line_numbers (E : RegexpEngine) (a b : string) (n m : Z)
  (data : list byte) :
  a <> EmptyString -> all_digits a = true -> Atoi a = Ok n ->
  b <> EmptyString -> all_digits b = true -> Atoi b = Ok m ->
  1 <= n <= count_nl data -> 1 <= m <= count_nl data ->
  step_lines E a data = Ok (n, n) /\
  step_lines E (a ++ "," ++ b) data = Ok (n, m).
Proof.
  intros Ha Hda Hna Hb Hdb Hmb Hn Hm; split.
  - apply step_lines_of_lines; [assumption..|].
    apply addrToByteRange_line; assumption.
  - apply step_lines_of_lines; [assumption..|].
    apply addrToByteRange_line_pair; assumption.
Qed.

Lemma step_lines_line_numbers_witness :
  step_lines LiteralEngine "2" three_lines = Ok (2, 2) /\
  step_lines LiteralEngine ("2" ++ "," ++ "3") three_lines = Ok (2, 3).
Proof.
  apply (step_lines_line_numbers LiteralEngine "2" "3" 2 3 three_lines);
    try reflexivity; try discriminate; vm_compute; split; discriminate.
Defined.

Lemma index_colon_app (file : string) :
  string_forallb (fun c => negb (c =? ":")%char) file = true ->
  forall tail i,
  index_colon (file ++ String ":" tail) i = i + Z.of_nat (String.length file) /\
  index_colon file i = -1.
Proof.
  intros Hf tail; induction file as [|c f IH]; intros i;
    cbn [String.append index_colon String.length].
  - change ((":" =? ":")%char) with true; split; [lia|reflexivity].
  - cbn [string_forallb] in Hf; apply andb_true_iff in Hf as [Hc Hf].
    apply negb_true_iff in Hc; rewrite Hc.
    destruct (IH Hf (i + 1)) as [-> ->]; split; [lia|reflexivity].
Qed.

Lemma split_src_colon (file addr : string) :
  string_forallb (fun c => negb (c =? ":")%char) file = true ->
  split_src (file ++ ":" ++ addr) = (file, Some addr).
Proof.
  intros Hf; unfold split_src; cbn [String.append].
  destruct (index_colon_app file Hf addr 0) as [-> _]; cbn [Z.add].
  rewrite string_length_append; cbn [String.length].
  destruct (Z.ltb_spec (Z.of_nat (String.length file)) 0); [lia|].
  destruct (Z.ltb_spec (Z.of_nat (String.length file))
              (Z.of_nat (String.length file + S (String.length addr)))); [|lia].
  rewrite Nat2Z.id.
  replace (Z.to_nat (Z.of_nat (String.length file) + 1))
    with (String.length file + 1)%nat by lia.
  rewrite substring_prefix, string_drop_app; reflexivity.
Qed.

(** A step source splits at its first colon: a file name without a colon
    followed by [:addr] gives the name and the address, whatever colons the
    address holds, and a source without a colon is a file name with no
    address. *)
Theorem split_src_spec (file addr : string) :
  string_forallb (fun c => negb (c =? ":")%char) file = true ->
  split_src (file ++ ":" ++ addr) = (file, Some addr) /\
  split_src file = (file, None).
Proof.
  intros Hf; split; [apply split_src_colon; exact Hf|].
  assert (Hnil : forall x : string, (x ++ EmptyString)%string = x).
  { induction x as [|d x IH]; cbn [String.append]; congruence. }
  unfold split_src.
  destruct (index_colon_app file Hf EmptyString 0) as [_ ->].
  cbn [Z.ltb Z.compare]; rewrite Z.ltb_irrefl, Nat2Z.id.
  pose proof (substring_prefix file EmptyString) as Hs; rewrite Hnil in Hs.
  rewrite Hs; reflexivity.
Qed.

Lemma split_src_spec_witness :
  split_src ("a.go" ++ ":" ++ "/x:y/") = ("a.go"%string, Some "/x:y/"%string) /\
  split_src "a.go" = ("a.go"%string, None).
Proof. apply (split_src_spec "a.go" "/x:y/"); reflexivity. Defined.

(** ** The file print *)

Lemma firstn_plus {A : Type} (n m : nat) :
  forall l : list A,
  firstn (n + m) l = (firstn n l ++ firstn m (skipn n l))%list.
Proof.
  induction n as [|n IH]; intros l; [reflexivity|].
  destruct l as [|x l]; cbn [Nat.add firstn skipn app].
  - rewrite firstn_nil; reflexivity.
  - rewrite IH; reflexivity.
Qed.

Lemma lineToByte_le1 (data : list byte) (n : Z) :
  n <= 1 -> lineToByte data n = 0.
Proof.
  intros Hn; unfold lineToByte; destruct (Z.leb_spec n 1); [reflexivity|lia].
Qed.

Lemma slice_app (data : list byte) (a b c : Z) :
  0 <= a <= b -> b <= c ->
  (slice data a b ++ slice data b c)%list = slice data a c.
Proof.
  intros Hab Hbc; unfold slice.
  replace (Z.to_nat (c - a)) with (Z.to_nat (b - a) + Z.to_nat (c - b))%nat by lia.
  rewrite firstn_plus, skipn_skipn.
  replace (Z.to_nat (b - a) + Z.to_nat a)%nat with (Z.to_nat b) by lia.
  reflexivity.
Qed.

Lemma slice_all (data : list byte) : slice data 0 (len data) = data.
Proof.
  unfold slice, len; cbn [Z.to_nat skipn].
  rewrite Z.sub_0_r, Nat2Z.id; apply firstn_all.
Qed.

Lemma go_slice_ok (data : list byte) (a b : Z) :
  0 <= a <= b -> b <= len data -> go_slice data a b = Ok (slice data a b).
Proof.
  intros Hab Hb; unfold go_slice.
  destruct (Z.leb_spec 0 a); [|lia].
  destruct (Z.leb_spec a b); [|lia].
  destruct (Z.leb_spec b (len data)); [reflexivity|lia].
Qed.

Lemma byteToLine_0 (data : list byte) : byteToLine data 0 = 1.
Proof. rewrite byteToLine_eq by lia; reflexivity. Qed.

Lemma lineToByte_byteToLine_le (data : list byte) (k : Z) :
  0 <= k <= len data -> lineToByte data (byteToLine data k) <= k.
Proof.
  intros Hk.
  pose proof (byteToLine_count_bounds data k) as (_ & _ & Hb1 & Hb2).
  destruct (Z_le_dec (lineToByte data (byteToLine data k)) k) as [H|H]; [exact H|].
  destruct (lineToByte_cases data (byteToLine data k))
    as [[_ H0]|[(_ & _ & Hx & _)|[Hout _]]]; [lia| |lia].
  pose proof (count_before_lt data k (lineToByte data (byteToLine data k))
                ltac:(lia) Hx).
  rewrite byteToLine_eq in * by lia.
  rewrite lineToByte_count_before in * by (unfold lineCount in *; lia); lia.
Qed.

(** The mark stops where the line [n - 1] lines before the line of [mark]
    starts. *)
Lemma mark_loop_spec (data : list byte) :
  forall fuel mark n, 0 <= mark <= len data -> 1 <= n ->
  mark <= Z.of_nat fuel ->
  mark_loop fuel data mark n =
  Ok (lineToByte data (byteToLine data mark - n + 1)).
Proof.
  induction fuel as [|fuel IH]; intros mark n Hm Hn Hf; cbn [mark_loop].
  - assert (mark = 0) by lia; subst mark; cbn [Z.ltb Z.compare andb].
    rewrite byteToLine_0, lineToByte_le1 by lia; reflexivity.
  - destruct (Z.ltb_spec 0 mark) as [Hpos|Hz]; cbn [andb].
    + destruct (Z.ltb_spec 0 n); [|lia].
      destruct (index_in_range data (mark - 1) ltac:(lia)) as [c Hc].
      rewrite Hc; pose proof (byteToLine_step data mark c Hc) as Hs.
      destruct (is_nl c) eqn:Hnl; cbn [andb].
      * destruct (Z.eqb_spec (n - 1) 0) as [H1|H1].
        -- replace (byteToLine data mark - n + 1) with (byteToLine data mark) by lia.
           rewrite lineToByte_line_start;
             [reflexivity|lia|right; apply is_nl_spec in Hnl; subst c; exact Hc].
        -- rewrite IH by lia; do 2 f_equal; lia.
      * rewrite IH by lia; do 2 f_equal; lia.
    + assert (mark = 0) by lia; subst mark.
      rewrite byteToLine_0, lineToByte_le1 by lia; reflexivity.
Qed.

(** The response of the file print, for every pair of form values: the
    highlight starts at line [lo] and ends with line [max lo hi], the mark
    is put three lines before the highlight, no slice is out of the buffer,
    and, unless [hi] is the largest [int], the pieces of the file that are
    written are the file, each byte once and in order. *)
Theorem codewalkFileprint_spec (data : list byte) (lo hi : Z) :
  exists lo' hi' mark out,
    lo' = lineToByte data lo /\
    hi' = lineToByte data (wrap_int (Z.max lo hi + 1)) /\
    mark = lineToByte data (byteToLine data lo' - 3) /\
    codewalkFileprint data lo hi = Ok out /\
    out = ([Header; Escaped (slice data 0 mark); MarkAnchor;
            Escaped (slice data mark lo')]
           ++ (if lo' <? hi'
               then [HighlightOpen; Escaped (slice data lo' hi'); HighlightClose]
               else [])
           ++ [Escaped (slice data hi' (len data)); Footer])%list /\
    0 <= mark <= lo' /\ lo' <= len data /\ 0 <= hi' <= len data /\
    (Z.max lo hi < max_int -> lo' <= hi' /\ escaped_bytes out = data).
Proof.
  pose proof (lineToByte_in_buffer data lo) as Hlo.
  pose proof (lineToByte_in_buffer data (wrap_int (Z.max lo hi + 1))) as Hhi.
  pose proof (lineToByte_in_buffer data
                (byteToLine data (lineToByte data lo) - 3)) as Hmk.
  pose proof (loop_fuel_val data) as Hf.
  assert (Hmark : lineToByte data (byteToLine data (lineToByte data lo) - 3)
                  <= lineToByte data lo).
  { pose proof (lineToByte_mono data (byteToLine data (lineToByte data lo) - 3)
                  (byteToLine data (lineToByte data lo)) ltac:(lia)) as Hm.
    pose proof (lineToByte_byteToLine_le data (lineToByte data lo) Hlo); lia. }
  set (lo' := lineToByte data lo) in *.
  set (hi' := lineToByte data (wrap_int (Z.max lo hi + 1))) in *.
  set (mark := lineToByte data (byteToLine data lo' - 3)) in *.
  exists lo', hi', mark,
    ([Header; Escaped (slice data 0 mark); MarkAnchor;
      Escaped (slice data mark lo')]
     ++ (if lo' <? hi'
         then [HighlightOpen; Escaped (slice data lo' hi'); HighlightClose]
         else [])
     ++ [Escaped (slice data hi' (len data)); Footer])%list.
  split; [reflexivity|]; split; [reflexivity|]; split; [reflexivity|].
  assert (Hmax : (if hi <? lo then lo else hi) = Z.max lo hi)
    by (destruct (Z.ltb_spec hi lo); lia).
  split.
  { unfold codewalkFileprint; rewrite Hmax; fold lo' hi'.
    rewrite mark_loop_spec by lia; cbn [bind].
    replace (byteToLine data lo' - 4 + 1) with (byteToLine data lo' - 3) by lia.
    fold mark; rewrite !go_slice_ok by lia; cbn [bind].
    destruct (Z.ltb_spec lo' hi') as [Hlt|Hge].
    - rewrite go_slice_ok by lia; cbn [bind].
      rewrite go_slice_ok by lia; reflexivity.
    - cbn [bind]; rewrite go_slice_ok by lia; reflexivity. }
  split; [reflexivity|].
  split; [lia|]; split; [lia|]; split; [lia|].
  intros Hint.
  assert (Hle : lo' <= hi').
  { subst lo' hi'.
    destruct (Z_le_dec (- 2 ^ 63) (Z.max lo hi + 1)) as [Hge|Hlt].
    - unfold wrap_int, max_int in *; rewrite Z.mod_small by lia.
      apply lineToByte_mono; lia.
    - rewrite (lineToByte_le1 data lo) in * by lia; lia. }
  split; [exact Hle|].
  cbn [escaped_bytes app].
  destruct (Z.ltb_spec lo' hi') as [Hlt|Hge];
    cbn [escaped_bytes app]; rewrite ?app_nil_r.
  - rewrite !slice_app by lia; apply slice_all.
  - replace hi' with lo' by lia.
    rewrite !slice_app by lia; apply slice_all.
Qed.

(** When [hi] is the largest [int], which is also what [strconv.Atoi]
    returns for a number that does not fit, [hi + 1] wraps around to the
    smallest one and the end of the highlight falls on offset 0: nothing is
    highlighted, and the file is written in full after its part before line
    [lo], so that part is written twice. *)
Theorem codewalkFileprint_overflow (data : list byte) (lo : Z) :
  1 < lo <= lineCount data -> lo <= max_int ->
  exists out,
    codewalkFileprint data lo max_int = Ok out /\
    0 < lineToByte data lo /\
    escaped_bytes out = (slice data 0 (lineToByte data lo) ++ data)%list /\
    len (escaped_bytes out) = lineToByte data lo + len data.
Proof.
  intros Hlo Hint.
  pose proof (lineToByte_in_buffer data lo) as Hr.
  pose proof (lineToByte_in_buffer data
                (byteToLine data (lineToByte data lo) - 3)) as Hmk.
  pose proof (loop_fuel_val data) as Hf.
  assert (Hpos : 0 < lineToByte data lo).
  { destruct (lineToByte_cases data lo) as [[H1 _]|[(_ & H & _)|[H1 _]]]; lia. }
  assert (Hmark : lineToByte data (byteToLine data (lineToByte data lo) - 3)
                  <= lineToByte data lo).
  { pose proof (lineToByte_mono data (byteToLine data (lineToByte data lo) - 3)
                  (byteToLine data (lineToByte data lo)) ltac:(lia)) as Hm.
    pose proof (lineToByte_byteToLine_le data (lineToByte data lo) Hr); lia. }
  assert (Hhi : lineToByte data
                  (wrap_int ((if max_int <? lo then lo else max_int) + 1)) = 0).
  { destruct (Z.ltb_spec max_int lo); [lia|]; reflexivity. }
  unfold codewalkFileprint; rewrite Hhi.
  rewrite mark_loop_spec by lia; cbn [bind].
  replace (byteToLine data (lineToByte data lo) - 4 + 1)
    with (byteToLine data (lineToByte data lo) - 3) by lia.
  destruct (Z.ltb_spec (lineToByte data lo) 0); [lia|].
  rewrite (go_slice_ok data 0 (lineToByte data _)) by lia; cbn [bind].
  rewrite (go_slice_ok data _ (lineToByte data lo)) by lia; cbn [bind].
  rewrite (go_slice_ok data 0 (len data)) by lia; cbn [bind].
  eexists; split; [reflexivity|]; split; [exact Hpos|].
  cbn [escaped_bytes app]; rewrite app_nil_r, slice_all.
  rewrite app_assoc, slice_app by lia.
  split; [reflexivity|].
  rewrite len_app; f_equal.
  unfold slice, len in *; rewrite Z.sub_0_r; cbn [Z.to_nat skipn].
  rewrite length_firstn; lia.
Qed.

Lemma codewalkFileprint_overflow_witness :
  exists out,
    codewalkFileprint three_lines 2 max_int = Ok out /\
    0 < lineToByte three_lines 2 /\
    escaped_bytes out =
      (slice three_lines 0 (lineToByte three_lines 2) ++ three_lines)%list /\
    len (escaped_bytes out) = lineToByte three_lines 2 + len three_lines.
Proof.
  apply (codewalkFileprint_overflow three_lines 2);
    [vm_compute; split; [reflexivity|discriminate]|vm_compute; discriminate].
Defined.

(** ** From a step to its display *)

(** The highlight of the file print for line numbers of the buffer. *)
Lemma codewalkFileprint_highlight (data : list byte) (lo hi : Z) :
  1 <= lo -> Z.max lo hi < max_int ->
  exists out,
    codewalkFileprint data lo hi = Ok out /\
    highlighted out =
      slice data (lineToByte data lo) (lineToByte data (Z.max lo hi + 1)).
Proof.
  intros Hone Hint.
  assert (Hw : wrap_int (Z.max lo hi + 1) = Z.max lo hi + 1).
  { unfold wrap_int, max_int in *; rewrite Z.mod_small by lia; lia. }
  assert (Hmax : (if hi <? lo then lo else hi) = Z.max lo hi)
    by (destruct (Z.ltb_spec hi lo); lia).
  pose proof (lineToByte_in_buffer data lo) as Hlo.
  pose proof (lineToByte_in_buffer data (Z.max lo hi + 1)) as Hhi.
  pose proof (lineToByte_in_buffer data
                (byteToLine data (lineToByte data lo) - 3)) as Hmk.
  pose proof (loop_fuel_val data) as Hf.
  pose proof (lineToByte_mono data lo (Z.max lo hi + 1) ltac:(lia)) as Hle.
  assert (Hmark : lineToByte data (byteToLine data (lineToByte data lo) - 3)
                  <= lineToByte data lo).
  { pose proof (lineToByte_mono data (byteToLine data (lineToByte data lo) - 3)
                  (byteToLine data (lineToByte data lo)) ltac:(lia)) as Hm.
    pose proof (lineToByte_byteToLine_le data (lineToByte data lo) Hlo); lia. }
  unfold codewalkFileprint; rewrite Hmax, Hw.
  set (lo' := lineToByte data lo) in *.
  set (hi' := lineToByte data (Z.max lo hi + 1)) in *.
  rewrite mark_loop_spec by lia; cbn [bind].
  replace (byteToLine data lo' - 4 + 1) with (byteToLine data lo' - 3) by lia.
  rewrite (go_slice_ok data 0 (lineToByte data _)) by lia; cbn [bind].
  rewrite (go_slice_ok data _ lo') by lia; cbn [bind].
  rewrite (go_slice_ok data hi' (len data)) by lia.
  destruct (Z.ltb_spec lo' hi') as [Hlt|Hge].
  - rewrite go_slice_ok by lia; cbn [bind app].
    eexists; split; [reflexivity|reflexivity].
  - cbn [bind app]; eexists; split; [reflexivity|].
    unfold slice; replace (Z.to_nat (hi' - lo')) with 0%nat by lia.
    reflexivity.
Qed.

(** The stored line numbers lead back to the range the step selects, grown
    to whole lines: line [Lo] starts where the grown range starts and line
    [Hi] ends where it ends.  Asked for the lines [Lo] to [Hi], the file
    print highlights the grown range when [Lo <= Hi]; when [Hi < Lo] it
    takes [Lo] for [Hi] and highlights line [Lo]. *)
Theorem step_lines_round_trip (E : RegexpEngine) (addr : string)
  (data : list byte) (lo hi Lo Hi : Z) :
  addrToByteRange E addr 0 data = Ok (lo, hi) ->
  step_lines E addr data = Ok (Lo, Hi) ->
  len data + 1 < max_int ->
  exists lo' hi' out,
    line_start (loop_fuel data) data lo = Ok lo' /\
    line_end (loop_fuel data) data hi = Ok hi' /\
    lo' = lineToByte data Lo /\ hi' = lineToByte data (Hi + 1) /\
    codewalkFileprint data Lo Hi = Ok out /\
    (Lo <= Hi -> highlighted out = slice data lo' hi') /\
    (Hi < Lo -> highlighted out = slice data lo' (lineToByte data (Lo + 1))).
Proof.
  intros Hr Hs Hint.
  destruct (step_lines_eq E addr data lo hi Hr) as (Hlo & Hhi & Heq).
  rewrite Heq in Hs; injection Hs as <- <-.
  pose proof (loop_fuel_val data) as Hf.
  pose proof (byteToLine_count_bounds data lo) as (_ & _ & Hb1 & Hb2).
  pose proof (byteToLine_count_bounds data (Z.max 0 (hi - 1)))
    as (_ & _ & Hb3 & Hb4).
  pose proof (count_nl_le_len data) as Hc; unfold lineCount in *.
  set (Lo := byteToLine data lo) in *.
  set (Hi := byteToLine data (Z.max 0 (hi - 1))) in *.
  destruct (codewalkFileprint_highlight data Lo Hi ltac:(lia) ltac:(lia))
    as (out & Hout & Hh).
  exists (lineToByte data Lo), (lineToByte data (Hi + 1)), out.
  split; [apply line_start_spec; lia|].
  split; [apply line_end_spec; lia|].
  split; [reflexivity|]; split; [reflexivity|]; split; [exact Hout|].
  split; intros Hcmp; rewrite Hh; do 2 f_equal; lia.
Qed.

Lemma step_lines_round_trip_witness :
  exists lo' hi' out,
    line_start (loop_fuel three_lines) three_lines 9 = Ok lo' /\
    line_end (loop_fuel three_lines) three_lines 11 = Ok hi' /\
    lo' = lineToByte three_lines 2 /\ hi' = lineToByte three_lines (2 + 1) /\
    codewalkFileprint three_lines 2 2 = Ok out /\
    (2 <= 2 -> highlighted out = slice three_lines lo' hi') /\
    (2 < 2 ->
     highlighted out = slice three_lines lo' (lineToByte three_lines (2 + 1))).
Proof.
  apply (step_lines_round_trip LiteralEngine "/e2/" three_lines 9 11 2 2);
    [reflexivity|reflexivity|vm_compute; reflexivity].
Defined.

(** ** Printing a step *)

Lemma format_digits_value :
  forall fuel u acc, 0 <= u < 10 ^ (Z.of_nat fuel + 1) ->
  digits_value (format_digits fuel u acc) 0 = digits_value acc u.
Proof.
  assert (Hd : forall u acc, 0 <= u ->
            digits_value
              (String (ascii_of_nat (Z.to_nat (48 + u mod 10))) acc) (u / 10)
            = digits_value acc u).
  { intros u acc Hu; cbn [digits_value].
    pose proof (Z.mod_pos_bound u 10 ltac:(lia)).
    rewrite nat_ascii_embedding by lia.
    f_equal; rewrite Z2Nat.id by lia.
    pose proof (Z.div_mod u 10 ltac:(lia)); lia. }
  induction fuel as [|fuel IH]; intros u acc Hu; cbn [format_digits].
  - destruct (Z.ltb_spec u 10) as [Hlt|Hge].
    + rewrite <- (Hd u acc) by lia; rewrite Z.div_small by lia; reflexivity.
    + cbn in Hu; lia.
  - destruct (Z.ltb_spec u 10) as [Hlt|Hge].
    + rewrite <- (Hd u acc) by lia; rewrite Z.div_small by lia; reflexivity.
    + rewrite IH; [apply Hd; lia|].
      split; [apply Z.div_pos; lia|].
      apply Z.div_lt_upper_bound; [lia|].
      replace (Z.of_nat (S fuel) + 1) with (Z.succ (Z.of_nat fuel + 1)) in Hu by lia.
      rewrite Z.pow_succ_r in Hu by lia; lia.
Qed.

Lemma format_digits_digits :
  forall fuel u acc, 0 <= u -> all_digits acc = true ->
  all_digits (format_digits fuel u acc) = true /\
  format_digits fuel u acc <> EmptyString.
Proof.
  assert (Hd : forall u acc, 0 <= u -> all_digits acc = true ->
            all_digits (String (ascii_of_nat (Z.to_nat (48 + u mod 10))) acc)
            = true).
  { intros u acc Hu Hacc; unfold all_digits in *; cbn [string_forallb].
    rewrite Hacc, andb_true_r; unfold is_digit.
    pose proof (Z.mod_pos_bound u 10 ltac:(lia)).
    rewrite nat_ascii_embedding by lia.
    apply andb_true_iff; split; apply Nat.leb_le; lia. }
  induction fuel as [|fuel IH]; intros u acc Hu Hacc; cbn [format_digits].
  - destruct (u <? 10); (split; [apply Hd; assumption|discriminate]).
  - destruct (u <? 10); [split; [apply Hd; assumption|discriminate]|].
    apply IH; [apply Z.div_pos; lia|apply Hd; assumption].
Qed.

Lemma string_append_assoc (a b c : string) :
  ((a ++ b) ++ c = a ++ (b ++ c))%string.
Proof. induction a as [|x a IH]; cbn [String.append]; congruence. Qed.

Lemma format_int_Atoi (n : Z) :
  0 <= n <= max_int ->
  format_int n <> EmptyString /\ all_digits (format_int n) = true /\
  Atoi (format_int n) = Ok n.
Proof.
  intros Hn; unfold format_int, max_int in *.
  destruct (Z.ltb_spec n 0); [lia|].
  destruct (format_digits_digits 19 n EmptyString ltac:(lia) eq_refl) as [Hd Hne].
  split; [exact Hne|]; split; [exact Hd|].
  unfold Atoi; rewrite format_digits_value.
  - cbn [digits_value]; destruct (Z.leb_spec n (2 ^ 63 - 1)); [reflexivity|lia].
  - change (10 ^ (Z.of_nat 19 + 1)) with 100000000000000000000.
    change (2 ^ 63 - 1) with 9223372036854775807 in Hn; lia.
Qed.

(** What a step prints leads back to it: for a file name without a colon
    and lines [Lo] and [Hi] that end in a newline, the printed form splits
    into the file name and an address, and the lines of that address are
    [Lo] and [Hi] again. *)
Theorem codestep_String_round_trip (E : RegexpEngine) (st : codestep)
  (data : list byte) :
  string_forallb (fun c => negb (c =? ":")%char) (File st) = true ->
  1 <= Lo st <= count_nl data -> 1 <= Hi st <= count_nl data ->
  Lo st <= max_int -> Hi st <= max_int ->
  exists addr,
    split_src (codestep_String st) = (File st, Some addr) /\
    step_lines E addr data = Ok (Lo st, Hi st).
Proof.
  intros Hfile Hlo Hhi Hlo' Hhi'.
  destruct (format_int_Atoi (Lo st) ltac:(lia)) as (Ha & Hda & Hna).
  destruct (format_int_Atoi (Hi st) ltac:(lia)) as (Hb & Hdb & Hnb).
  assert (Hone : step_lines E (format_int (Lo st)) data = Ok (Lo st, Lo st)).
  { apply step_lines_of_lines; [assumption..|].
    apply addrToByteRange_line; assumption. }
  assert (Htwo : step_lines E (format_int (Lo st) ++ "," ++ format_int (Hi st))
                   data = Ok (Lo st, Hi st)).
  { apply step_lines_of_lines; [assumption..|].
    apply addrToByteRange_line_pair; assumption. }
  unfold codestep_String.
  destruct (Z.eqb_spec (Lo st) 0) as [H0|_]; [lia|]; cbn [negb orb].
  destruct (Z.eqb_spec (Lo st) (Hi st)) as [Heq|Hne]; cbn [negb].
  - exists (format_int (Lo st)); split.
    + apply (split_src_colon (File st) (format_int (Lo st)) Hfile).
    + rewrite <- Heq; exact Hone.
  - exists (format_int (Lo st) ++ "," ++ format_int (Hi st))%string; split.
    + rewrite <- (split_src_colon (File st)
                    (format_int (Lo st) ++ "," ++ format_int (Hi st)) Hfile).
      f_equal; rewrite string_append_assoc; reflexivity.
    + exact Htwo.
Qed.

Lemma codestep_String_round_trip_witness :
  exists addr,
    split_src (codestep_String {| File := "a.go"; Lo := 2; Hi := 3 |}) =
      ("a.go"%string, Some addr) /\
    step_lines LiteralEngine addr three_lines = Ok (2, 3).
Proof.
  apply (codestep_String_round_trip LiteralEngine
           {| File := "a.go"; Lo := 2; Hi := 3 |} three_lines);
    vm_compute; first [reflexivity | split; discriminate | discriminate].
Defined.

(** ** Addresses that cannot panic *)

Lemma addrNumber_forward_no_panic (data : list byte) (h n : Z)
  (charOffset : bool) (p : PanicKind) :
  0 <= h <= len data -> addrNumber_forward data h n charOffset <> Panic p.
Proof.
  intros Hh; unfold addrNumber_forward; destruct charOffset.
  - apply bind_no_panic; [apply runes_forward_no_panic; lia|].
    intros r _; destruct (fst r =? 0); discriminate.
  - apply bind_no_panic.
    + destruct (Z.ltb_spec 0 h); [apply next_line_start_no_panic; lia|discriminate].
    + intros h1 Hh1; destruct (n =? 0); [discriminate|].
      apply lines_forward_no_panic.
      destruct (Z.ltb_spec 0 h);
        [apply next_line_start_bounds in Hh1; lia|injection Hh1 as <-; lia].
Qed.

Lemma addrNumber_no_panic (data : list byte) (lo hi : Z) (dir : ascii) (n : Z)
  (charOffset : bool) (p : PanicKind) :
  0 <= lo <= hi -> hi <= len data ->
  dir <> dirMinus \/ charOffset = false ->
  addrNumber data lo hi dir n charOffset <> Panic p.
Proof.
  intros Hlo Hhi Hsafe; pose proof (len_nonneg data) as Hd; unfold addrNumber.
  destruct (dir =? dir0)%char; [apply addrNumber_forward_no_panic; lia|].
  destruct (dir =? dirPlus)%char; [apply addrNumber_forward_no_panic; lia|].
  destruct (Ascii.eqb_spec dir dirMinus) as [->|]; [|discriminate].
  destruct Hsafe as [Hne| ->]; [congruence|].
  unfold addrNumber_backward.
  apply bind_no_panic; [apply line_start_no_panic; lia|].
  intros l Hl; apply line_start_le_len in Hl.
  destruct (n =? 0); [discriminate|apply lines_backward_no_panic; exact Hl].
Qed.

Lemma addrRegexp_no_panic (E : RegexpEngine) (data : list byte) (lo hi : Z)
  (dir : ascii) (pattern : string) (p : PanicKind) :
  0 <= hi <= len data -> addrRegexp E data lo hi dir pattern <> Panic p.
Proof.
  intros Hhi; unfold addrRegexp.
  destruct (Compile E pattern) as [re|]; [|discriminate].
  destruct (dir =? dirMinus)%char; [discriminate|].
  destruct (Z.ltb_spec hi 0); [lia|].
  destruct (Z.ltb_spec (len data) hi); [lia|]; cbn [orb].
  destruct (FindIndex E re (skipn (Z.to_nat hi) data)) as [[m0 m1]|];
    [discriminate|].
  destruct (0 <? hi); [|discriminate].
  destruct (FindIndex E re data) as [[m0 m1]|]; discriminate.
Qed.

Lemma no_byte_cons (c x : ascii) (s : string) :
  no_byte c (String x s) = true <-> x <> c /\ no_byte c s = true.
Proof.
  unfold no_byte; cbn [string_forallb]; rewrite andb_true_iff, negb_true_iff.
  destruct (Ascii.eqb_spec x c); split; intros [H1 H2]; split;
    congruence.
Qed.

Lemma no_byte_drop (c : ascii) (n : nat) :
  forall s, no_byte c s = true -> no_byte c (string_drop n s) = true.
Proof.
  induction n as [|n IH]; intros s Hs; [exact Hs|].
  destruct s as [|x s]; [reflexivity|].
  cbn [string_drop]; apply IH; apply no_byte_cons in Hs; apply Hs.
Qed.

Lemma regexp_end_no_backslash :
  forall rest i, no_byte "\" rest = true ->
  (fst (regexp_end rest i) <= i + String.length rest)%nat.
Proof.
  induction rest as [|c rest IH]; intros i Hs; cbn [regexp_end String.length fst];
    [lia|].
  apply no_byte_cons in Hs as [Hc Hs].
  destruct (Ascii.eqb_spec c "\"); [contradiction|].
  destruct (c =? "/")%char; cbn [fst]; [lia|].
  specialize (IH (S i) Hs); lia.
Qed.

(** The loop of the evaluator does not panic while its range lies in the
    buffer, no pattern is cut off after a backslash, and no backward step
    can be counted in runes. *)
Lemma addr_loop_no_panic (E : RegexpEngine) (data : list byte)
  (p : PanicKind) :
  forall fuel addr lo hi dir prevc charOffset,
  0 <= lo <= hi -> hi <= len data ->
  no_byte "\" addr = true ->
  (no_byte "-" addr = true /\ dir <> dirMinus /\ prevc <> dirMinus) \/
  (no_byte "#" addr = true /\ charOffset = false) ->
  addr_loop E fuel data addr lo hi dir prevc charOffset <> Panic p.
Proof.
  pose proof (len_nonneg data) as Hd.
  induction fuel as [|fuel IH];
    intros addr lo hi dir prevc charOffset Hlo Hhi Hbs Hinv;
    destruct addr as [|c rest]; cbn [addr_loop]; try discriminate;
    try (destruct (negb (dir =? dir0)%char); [|discriminate];
         apply addrNumber_no_panic; [lia|lia|];
         destruct Hinv as [(_ & H & _)|[_ H]]; [left|right]; exact H).
  apply no_byte_cons in Hbs as [Hcb Hbs].
  assert (Hinv' : (c <> dirMinus /\ no_byte "-" rest = true /\
                   dir <> dirMinus /\ prevc <> dirMinus) \/
                  (c <> "#"%char /\ no_byte "#" rest = true /\
                   charOffset = false)).
  { destruct Hinv as [(H & H1 & H2)|[H H1]]; apply no_byte_cons in H;
      [left|right]; tauto. }
  clear Hinv.
  destruct (Ascii.eqb_spec c ",") as [->|Hcomma].
  { destruct rest as [|c' rest]; [discriminate|].
    apply bind_no_panic; [|discriminate].
    apply IH; [lia|lia|exact Hbs|].
    destruct Hinv' as [(_ & H & _)|(_ & H & _)]; [left|right];
      (split; [exact H|]); [split; discriminate|reflexivity]. }
  destruct ((c =? "+")%char || (c =? "-")%char) eqn:Hdir.
  { apply bind_no_panic.
    - destruct ((prevc =? "+")%char || (prevc =? "-")%char); [|discriminate].
      apply addrNumber_no_panic; [lia|lia|].
      destruct Hinv' as [(_ & _ & _ & H)|(_ & _ & H)]; [left|right]; exact H.
    - intros [a b] Hr; cbn [fst snd].
      assert (Hab : 0 <= a <= b /\ b <= len data).
      { destruct ((prevc =? "+")%char || (prevc =? "-")%char).
        - apply addrNumber_bounds in Hr; lia.
        - injection Hr as <- <-; lia. }
      apply IH; [lia|lia|exact Hbs|].
      destruct Hinv' as [(H & H1 & _)|(_ & H & H1)]; [left|right]; tauto. }
  destruct (Ascii.eqb_spec c "$") as [->|Hdollar].
  { apply IH; [lia|lia|exact Hbs|].
    destruct Hinv' as [(_ & H & H1 & _)|(_ & H & H1)]; [left|right; tauto].
    split; [exact H|]; split; [|discriminate].
    destruct rest; [exact H1|discriminate]. }
  destruct (Ascii.eqb_spec c "#") as [->|Hhash].
  { apply IH; [lia|lia|exact Hbs|].
    destruct Hinv' as [(_ & H & H1 & _)|(H & _)]; [left|congruence].
    split; [exact H|]; split; [exact H1|discriminate]. }
  assert (Hdrop : forall k d,
            (no_byte "-" (string_drop k (String c rest)) = true /\
             d <> dirMinus /\ c <> dirMinus) \/
            (no_byte "#" (string_drop k (String c rest)) = true /\
             charOffset = false) \/ d = dirMinus).
  { intros k d; destruct (Ascii.eqb_spec d dirMinus) as [Hd'|Hd']; [tauto|].
    destruct Hinv' as [(H & H1 & _)|(H & H1 & H2)]; [left|right; left].
    - split; [|tauto]; apply no_byte_drop, no_byte_cons; tauto.
    - split; [|exact H2]; apply no_byte_drop, no_byte_cons; tauto. }
  destruct (is_digit c).
  { apply bind_no_panic;
      [unfold Atoi; cbv zeta; destruct (_ <=? _); discriminate|].
    intros n _; apply bind_no_panic.
    - apply addrNumber_no_panic; [lia|lia|].
      destruct Hinv' as [(_ & _ & H & _)|(_ & _ & H)]; [left|right]; exact H.
    - intros [a b] Hr; cbn [fst snd]; apply addrNumber_bounds in Hr; [|lia|lia].
      apply IH; [lia|lia|apply no_byte_drop, no_byte_cons; tauto|].
      destruct (Hdrop (digits_end rest 1) dir0) as [H|[[H H1]|H]];
        [left; exact H|right; split; [exact H|reflexivity]|discriminate]. }
  destruct (c =? "/")%char; [|discriminate].
  pose proof (regexp_end_no_backslash rest 1 Hbs) as Hend.
  destruct (Nat.ltb_spec (String.length (String c rest))
              (fst (regexp_end rest 1))) as [Hlt|_];
    [cbn [String.length] in Hlt; lia|].
  apply bind_no_panic; [apply addrRegexp_no_panic; lia|].
  intros [a b] Hr; cbn [fst snd]; apply addrRegexp_bounds in Hr.
  apply IH; [lia|lia|apply no_byte_drop, no_byte_cons; tauto|].
  destruct Hinv' as [(H & H1 & H2 & H3)|(H & H1 & H2)]; [left|right].
  - split; [apply no_byte_drop, no_byte_cons; tauto|tauto].
  - split; [apply no_byte_drop, no_byte_cons; tauto|exact H2].
Qed.

(** From a position in the buffer, an address without a backslash that
    does not hold both a [-] and a [#] is evaluated to a range or to an
    error: it cannot panic. *)
Theorem addrToByteRange_returns (E : RegexpEngine) (addr : string)
  (start : Z) (data : list byte) :
  0 <= start <= len data ->
  no_byte "\" addr = true ->
  no_byte "-" addr = true \/ no_byte "#" addr = true ->
  (exists r, addrToByteRange E addr start data = Ok r) \/
  (exists e, addrToByteRange E addr start data = Err e).
Proof.
  intros Hs Hbs Hsafe.
  pose proof (addrToByteRange_total E addr start data) as Htot.
  assert (Hnp : forall p, addrToByteRange E addr start data <> Panic p).
  { intros p; unfold addrToByteRange.
    apply addr_loop_no_panic; [lia|lia|exact Hbs|].
    destruct Hsafe as [H|H]; [left|right];
      (split; [exact H|]); [split; discriminate|reflexivity]. }
  destruct (addrToByteRange E addr start data) as [r|e|p|];
    [left; eauto|right; eauto|destruct (Hnp p); reflexivity|congruence].
Qed.

Lemma addrToByteRange_returns_witness :
  (exists r, addrToByteRange LiteralEngine "/e2/-1,$" 0 three_lines = Ok r) \/
  (exists e, addrToByteRange LiteralEngine "/e2/-1,$" 0 three_lines = Err e).
Proof.
  apply (addrToByteRange_returns LiteralEngine "/e2/-1,$" 0 three_lines);
    [unfold len; cbn; lia|reflexivity|right; reflexivity].
Defined.
